(** * The command pipeline of sublime-cli: [sublime/cli/decorator.py]

    A shallow embedding of the decorators that every subcommand of the
    command line client shares ([echo_result], [handle_exceptions],
    [pass_api_client], the [*_command] groups and the two click
    exceptions), together with the few functions of the Python standard
    library and of click they call ([str.strip], [os.path.splitext],
    [os.path.basename], [repr], [str], [click.echo], [click.open_file],
    [Context.exit] and the exception handling of [Command.main]).

    Python strings are modelled as [string]s whose characters are code
    points below 256, paths follow [posixpath].  Effects are explicit: a
    computation reads the invocation context and the outside world,
    threads the mutable [context.params] dictionary and a trace of
    observable events, and either returns or raises.

    What lives in other modules of the package is a parameter: the
    registry [FORMATTERS], the value [load_config()] holds under
    ["api_key"], the outcome of the subcommand body and of the probe of
    the API client, and whether [RateLimitError] derives from
    [RequestFailure].  An exit status is recorded as the number given to
    [exit], so the source's [-1] stays [-1]. *)

From Stdlib Require Import ZArith Ascii String DecimalString.
From stdpp Require Import base strings gmap list.

Local Open Scope Z_scope.
Set Warnings "-register-all".

(** ** Python strings *)

Module PyStr.

Definition NL : string := String (ascii_of_nat 10) EmptyString.

Fixpoint mem (c : ascii) (chars : string) : bool :=
  match chars with
  | EmptyString => false
  | String a r => Ascii.eqb c a || mem c r
  end.

(** [s.lstrip(chars)] *)
Fixpoint lstrip (chars s : string) : string :=
  match s with
  | EmptyString => EmptyString
  | String c r => if mem c chars then lstrip chars r else s
  end.

(** [s.rstrip(chars)] *)
Fixpoint rstrip (chars s : string) : string :=
  match s with
  | EmptyString => EmptyString
  | String c r =>
      match rstrip chars r with
      | EmptyString => if mem c chars then EmptyString else String c EmptyString
      | r' => String c r'
      end
  end.

(** [s.strip(chars)]: both ends. *)
Definition strip (chars s : string) : string := rstrip chars (lstrip chars s).

(** [s.rfind(c)] for a one-character needle: the highest index, or -1. *)
Fixpoint rfind (c : ascii) (s : string) : Z :=
  match s with
  | EmptyString => -1
  | String a r =>
      let i := rfind c r in
      if 0 <=? i then i + 1 else if Ascii.eqb a c then 0 else -1
  end.

Definition len (s : string) : Z := Z.of_nat (String.length s).

(** A slice bound as Python normalises it: negative counts from the end,
    and the result is clipped to [0, len]. *)
Definition bound (s : string) (i : Z) : nat :=
  Z.to_nat (if i <? 0 then Z.max 0 (len s + i) else Z.min i (len s)).

(** [s[i:j]] *)
Definition slice (s : string) (i j : Z) : string :=
  String.substring (bound s i) (bound s j - bound s i)%nat s.

(** [s[:j]] and [s[i:]] *)
Definition slice_to (s : string) (j : Z) : string := slice s 0 j.
Definition slice_from (s : string) (i : Z) : string := slice s i (len s).

Definition hexdigit (n : N) : ascii :=
  match n with
  | 0 => "0" | 1 => "1" | 2 => "2" | 3 => "3" | 4 => "4" | 5 => "5"
  | 6 => "6" | 7 => "7" | 8 => "8" | 9 => "9" | 10 => "a" | 11 => "b"
  | 12 => "c" | 13 => "d" | 14 => "e" | _ => "f"
  end%N%char.

(** Code points below 256 that [str.isprintable] rejects. *)
Definition unprintable (n : N) : bool :=
  ((n <? 32) || ((127 <=? n) && (n <=? 160)) || (n =? 173))%N.

Definition backslash : ascii := ascii_of_nat 92.
Definition apostrophe : ascii := ascii_of_nat 39.
Definition dquote : ascii := ascii_of_nat 34.

(** One character of [repr(s)], [quote] being the delimiter chosen. *)
Definition repr_char (quote c : ascii) : string :=
  let n := N_of_ascii c in
  if Ascii.eqb c quote || Ascii.eqb c backslash then String backslash (String c EmptyString)
  else if (n =? 9)%N then String backslash "t"
  else if (n =? 10)%N then String backslash "n"
  else if (n =? 13)%N then String backslash "r"
  else if unprintable n then
    String backslash (String "x"%char
      (String (hexdigit (n / 16)) (String (hexdigit (n mod 16)) EmptyString)))
  else String c EmptyString.

Fixpoint repr_body (quote : ascii) (s : string) : string :=
  match s with
  | EmptyString => EmptyString
  | String c r => repr_char quote c +:+ repr_body quote r
  end.

(** [repr(s)] for a [str]: double quotes only when the text has an
    apostrophe and no double quote. *)
Definition repr (s : string) : string :=
  let quote := if mem apostrophe s && negb (mem dquote s) then dquote else apostrophe in
  String quote (repr_body quote s +:+ String quote EmptyString).

(** Characters that [repr] copies unchanged between apostrophes. *)
Definition plain_char (c : ascii) : bool :=
  negb (Ascii.eqb c apostrophe) && negb (Ascii.eqb c backslash)
  && negb (unprintable (N_of_ascii c)).

Fixpoint plain (s : string) : bool :=
  match s with
  | EmptyString => true
  | String c r => plain_char c && plain r
  end.

(** Every character of [s] is one of [chars]; [s] starts, ends with one
    of [chars]. *)
Fixpoint all_in (chars s : string) : bool :=
  match s with
  | EmptyString => true
  | String c r => mem c chars && all_in chars r
  end.

Definition starts_in (chars s : string) : bool :=
  match s with
  | EmptyString => false
  | String c _ => mem c chars
  end.

Fixpoint ends_in (chars s : string) : bool :=
  match s with
  | EmptyString => false
  | String c EmptyString => mem c chars
  | String _ r => ends_in chars r
  end.

(** Substring test, for statements about what a message names. *)
Fixpoint contains (needle s : string) : bool :=
  String.prefix needle s ||
  match s with
  | EmptyString => false
  | String _ r => contains needle r
  end.

End PyStr.

(** ** [os.path] (the POSIX flavour) *)

Module PosixPath.
Import PyStr.

(** The [while filenameIndex < dotIndex] loop of [genericpath._splitext];
    [n] counts the iterations left, [dotIndex - filenameIndex]. *)
Fixpoint splitext_loop (p : string) (n : nat) (filenameIndex dotIndex : Z)
  : string * string :=
  match n with
  | O => (p, slice_to p 0)
  | S n' =>
      if negb (String.eqb (slice p filenameIndex (filenameIndex + 1)) ".")
      then (slice_to p dotIndex, slice_from p dotIndex)
      else splitext_loop p n' (filenameIndex + 1) dotIndex
  end.

(** [os.path.splitext(p)] *)
Definition splitext (p : string) : string * string :=
  let sepIndex := rfind "/" p in
  let dotIndex := rfind "." p in
  if sepIndex <? dotIndex then
    let filenameIndex := sepIndex + 1 in
    splitext_loop p (Z.to_nat (dotIndex - filenameIndex)) filenameIndex dotIndex
  else (p, slice_to p 0).

(** [os.path.basename(p)] *)
Definition basename (p : string) : string :=
  let i := rfind "/" p + 1 in
  slice_from p i.

End PosixPath.

(** ** Python values

    What the API returns and what failures carry: JSON-shaped data.
    Dictionaries keep their insertion order and have string keys. *)

Inductive value : Type :=
| VNone
| VBool (b : bool)
| VInt (z : Z)
| VStr (s : string)
| VList (l : list value)
| VDict (d : list (string * value)).

Module PyVal.
Import PyStr.

Definition dec (z : Z) : string := NilZero.string_of_int (Z.to_int z).

(** [repr(v)] *)
Fixpoint repr (v : value) : string :=
  match v with
  | VNone => "None"
  | VBool true => "True"
  | VBool false => "False"
  | VInt z => dec z
  | VStr s => PyStr.repr s
  | VList l =>
      "[" +:+
      (fix items (l : list value) : string :=
         match l with
         | [] => EmptyString
         | [x] => repr x
         | x :: r => repr x +:+ ", " +:+ items r
         end) l +:+ "]"
  | VDict d =>
      "{" +:+
      (fix items (d : list (string * value)) : string :=
         match d with
         | [] => EmptyString
         | [(k, x)] => PyStr.repr k +:+ ": " +:+ repr x
         | (k, x) :: r => PyStr.repr k +:+ ": " +:+ repr x +:+ ", " +:+ items r
         end) d +:+ "}"
  end.

(** [str(v)], which is what [str.format] puts in place of [{}]. *)
Definition str (v : value) : string :=
  match v with
  | VStr s => s
  | _ => repr v
  end.

(** The number of constructors of a value. *)
Fixpoint size (v : value) : nat :=
  match v with
  | VList l =>
      S ((fix items (l : list value) : nat :=
            match l with
            | [] => 0
            | x :: r => size x + items r
            end) l)
  | VDict d =>
      S ((fix items (d : list (string * value)) : nat :=
            match d with
            | [] => 0
            | (_, x) :: r => size x + items r
            end) d)
  | _ => 1
  end%nat.

(** [d.get(key)] on the association list of a dictionary. *)
Fixpoint assoc (key : string) (d : list (string * value)) : option value :=
  match d with
  | [] => None
  | (k, x) :: r => if String.eqb k key then Some x else assoc key r
  end.

End PyVal.

(** ** Files, parameters, exceptions, events *)

(** A file object as the pipeline sees one: a standard stream or a file
    at a path. *)
Inductive file : Type :=
| Stdin
| Stdout
| Stderr
| Path (p : string).

(** [f.name] *)
Definition file_name (f : file) : string :=
  match f with
  | Stdin => "<stdin>"
  | Stdout => "<stdout>"
  | Stderr => "<stderr>"
  | Path p => p
  end.

(** The values click stores in [context.params] and passes as keyword
    arguments. *)
Inductive param : Type :=
| PNone
| PBool (b : bool)
| PStr (s : string)
| PFile (f : file).

(** Python truthiness, as [not x] and [if x:] test it. *)
Definition truthy (x : param) : bool :=
  match x with
  | PNone => false
  | PBool b => b
  | PStr s => negb (String.eqb s EmptyString)
  | PFile _ => true
  end.

(** An optional string or file as a Python value: absent is [None]. *)
Definition of_str (x : option string) : param :=
  match x with
  | Some s => PStr s
  | None => PNone
  end.

Definition of_file (x : option file) : param :=
  match x with
  | Some f => PFile f
  | None => PNone
  end.

(** Positional arguments the decorators prepend. *)
Inductive posarg : Type :=
| Ctx
| Client (api_key : param).

(** The exceptions that travel through the decorators.  The first two
    are the classes of [sublime.exceptions], with the [args] they were
    raised with; [RequestException] stands for any other
    [requests.exceptions.RequestException], with its [str()].  [Exit] is
    what [context.exit(code)] raises; the two click exceptions of this
    module follow; the rest are the built-in errors that lookups, indexing
    and attribute access raise, and any other error of the subcommand. *)
Inductive exn : Type :=
| RateLimitError (args : list value)
| RequestFailure (args : list value)
| RequestException (text : string)
| Exit (code : Z)
| MissingDetectionInput
| SubcommandNotImplemented (subcommand_name : string)
| FileNotFoundError (path : string)
| KeyError (key : string)
| IndexError
| TypeError
| AttributeError
| OtherError (class text : string).

(** The message of the two [click.ClickException] subclasses. *)
Definition message (e : exn) : option string :=
  match e with
  | MissingDetectionInput =>
      Some ("You must specify either a .pql detections file (-D) or a raw "
            +:+ "detection (-d)")
  | SubcommandNotImplemented subcommand_name =>
      Some (PyStr.repr subcommand_name +:+ " subcommand is not implemented yet.")
  | _ => None
  end.

(** Which rendering function of the registry is being called. *)
Inductive formatter_key : Type :=
| ByFormat (output_format : string)
| ByCommand (output_format command : string).

(** What an invocation does that can be observed: a path opened by
    [click.open_file], a line written by [click.echo] (or by click itself
    on standard error), a line logged by [LOGGER.error], the construction
    of the API client, the call of the subcommand body or of the probe
    (the two places where the API is used), the call of a rendering
    function, and the traceback of an uncaught exception. *)
Inductive event : Type :=
| OpenFile (path mode : string)
| Echo (f : file) (text : string)
| LogError (error_message : string)
| NewClient (api_key : param)
| Invoke (args : list posarg) (kwargs : gmap string param)
| Probe (api_key : param) (command_name : string)
| Render (key : formatter_key) (result : value) (verbose : param)
| Traceback (e : exn).

(** ** The computation monad *)

(** What opening a path for reading gives: the file; [FileNotFoundError]
    when there is nothing at the path; or another [OSError], named by its
    class, when something is there that cannot be opened
    ([IsADirectoryError], [PermissionError], ...). *)
Inductive reading : Type :=
| Readable
| Missing
| Unreadable (class : string).

(** What one invocation reads and never changes: the names click knows
    ([context.parent.info_name], [context.command.name]), the value
    [load_config()] holds under ["api_key"], and what opening each path
    for reading gives. *)
Record world : Type := {
  info_name : string;
  command_name : string;
  config_api_key : option string;
  open_read : string -> reading
}.

(** What it changes: [context.params] and the trace of events so far. *)
Record state : Type := {
  params : gmap string param;
  trace : list event
}.

(** A call returns a value or raises. *)
Inductive outcome (A : Type) : Type :=
| Return (a : A)
| Raise (e : exn).
Arguments Return {A} a.
Arguments Raise {A} e.

Definition M (A : Type) : Type := world -> state -> outcome A * state.

Definition ret {A} (a : A) : M A := fun _ st => (Return a, st).
Definition raise {A} (e : exn) : M A := fun _ st => (Raise e, st).
Definition bind {A B} (m : M A) (k : A -> M B) : M B :=
  fun w st =>
    match m w st with
    | (Return a, st') => k a w st'
    | (Raise e, st') => (Raise e, st')
    end.
Definition try {A} (m : M A) (handler : exn -> M A) : M A :=
  fun w st =>
    match m w st with
    | (Return a, st') => (Return a, st')
    | (Raise e, st') => handler e w st'
    end.
Definition ask : M world := fun w st => (Return w, st).
Definition get_params : M (gmap string param) := fun _ st => (Return (params st), st).
Definition emit (e : event) : M unit :=
  fun _ st => (Return tt, {| params := params st; trace := trace st ++ [e] |}).
Definition set_param (key : string) (x : param) : M unit :=
  fun _ st => (Return tt, {| params := <[key := x]> (params st); trace := trace st |}).
Definition lift {A} (o : outcome A) : M A := fun _ st => (o, st).

Declare Scope py_scope.
Delimit Scope py_scope with py.
Notation "x <- m ;; k" := (bind m (fun x => k))
  (at level 100, m at next level, right associativity) : py_scope.
Notation "m ;; k" := (bind m (fun _ => k))
  (at level 100, right associativity) : py_scope.
Local Open Scope py_scope.

(** A decorated function: positional arguments, keyword arguments. *)
Definition fn : Type := list posarg -> gmap string param -> M value.

(** ** click *)

Module Click.
Import PyStr.

(** [click.echo(message, file=f)]: the text and one newline; [file=None]
    is standard output. *)
Definition echo (message : string) (f : param) : M unit :=
  match f with
  | PNone => emit (Echo Stdout (message +:+ NL))
  | PFile f => emit (Echo f (message +:+ NL))
  | _ => raise AttributeError
  end.

(** [click.open_file(path, mode)]: a dash is the standard stream.  A
    path opened for reading gives the file or raises what [open] raises:
    [FileNotFoundError], or the other [OSError] of the world, kept as an
    [OtherError] with its class and the path.  A path opened for writing
    is created: the statements about the file [enrich] creates are about
    runs in which it can be. *)
Definition open_file (path mode : string) : M file :=
  if String.eqb path "-" then
    ret (if String.eqb mode "w" then Stdout else Stdin)
  else if String.eqb mode "w" then
    emit (OpenFile path mode);; ret (Path path)
  else
    w <- ask;;
    match open_read w path with
    | Readable => emit (OpenFile path mode);; ret (Path path)
    | Missing => raise (FileNotFoundError path)
    | Unreadable class => raise (OtherError class path)
    end.

(** [context.exit(code)]: raises [Exit]. *)
Definition exit {A} (code : Z) : M A := raise (Exit code).

(** [click.pass_context] *)
Definition pass_context (function : fn) : fn :=
  fun args kwargs => function (Ctx :: args) kwargs.

End Click.

(** [d.get(key)] and [d.get(key, default)] on a parameter dictionary. *)
Definition get (d : gmap string param) (key : string) : param :=
  default PNone (d !! key).
Definition get_default (d : gmap string param) (key : string) (dflt : param) : param :=
  default dflt (d !! key).

(** [v[key]] for a string key. *)
Definition getitem (v : value) (key : string) : M value :=
  match v with
  | VDict d =>
      match PyVal.assoc key d with
      | Some x => ret x
      | None => raise (KeyError key)
      end
  | _ => raise TypeError
  end.

(** [args[i]] on the argument tuple of an exception. *)
Definition index (args : list value) (i : nat) : M value :=
  match args !! i with
  | Some x => ret x
  | None => raise IndexError
  end.

(** ** The formatter registry, [sublime.cli.formatter.FORMATTERS]

    The table itself lives in another module; the decorators only rely on
    its shape: a format maps to a rendering function, or to a dictionary
    of rendering functions keyed by command name. *)

Definition renderer : Type := value -> param -> string.

Inductive formatter_entry : Type :=
| Uniform (f : renderer)
| PerCommand (d : gmap string renderer).

(** The help text of [pass_api_client]. *)
Definition api_key_help (prog_name : string) : string :=
  PyStr.NL +:+ "Error: API key not found." +:+ PyStr.NL +:+ PyStr.NL
  +:+ "To fix this problem, please use any of the following methods "
  +:+ "(in order of precedence):" +:+ PyStr.NL
  +:+ "- Pass it using the -k/--api-key option." +:+ PyStr.NL
  +:+ "- Set it in the SUBLIME_API_KEY environment variable." +:+ PyStr.NL
  +:+ "- Run " +:+ PyStr.repr (prog_name +:+ " setup")
  +:+ " to save it to the configuration file." +:+ PyStr.NL.

Section Decorators.

(** [FORMATTERS], imported from [sublime.cli.formatter]. *)
Variable FORMATTERS : gmap string formatter_entry.

(** Whether [RateLimitError] derives from [RequestFailure] in
    [sublime.exceptions]. *)
Variable rate_limit_is_request_failure : bool.

(** [api_client.not_implemented(name)] of the client bound to a key. *)
Variable not_implemented : param -> string -> outcome value.

(** Calling a rendering function; the call is recorded. *)
Definition render (key : formatter_key) (f : renderer) (result : value)
    (verbose : param) : M string :=
  emit (Render key result verbose);; ret (f result verbose).

(** [FORMATTERS[output_format]] *)
Definition lookup_format (output_format : param) : M formatter_entry :=
  match output_format with
  | PStr s =>
      match FORMATTERS !! s with
      | Some entry => ret entry
      | None => raise (KeyError s)
      end
  | PNone => raise (KeyError "None")
  | PBool b => raise (KeyError (if b then "True" else "False"))
  | PFile f => raise (KeyError (file_name f))
  end.

(** The format as a text, for naming the rendering function. *)
Definition format_of (output_format : param) : string :=
  match output_format with
  | PStr s => s
  | _ => EmptyString
  end.

(** [entry[command]]: a dictionary of rendering functions can be
    subscripted, a function cannot. *)
Definition subscript (output_format : string) (entry : formatter_entry)
    (command : string) : M (formatter_key * renderer) :=
  match entry with
  | Uniform _ => raise TypeError
  | PerCommand d =>
      match d !! command with
      | Some f => ret (ByCommand output_format command, f)
      | None => raise (KeyError command)
      end
  end.

(** Lines 47-54: the name of the file [enrich] creates when no output
    file was given. *)
Definition output_file_name (input_file_relative_name : string)
    (output_format : param) : string :=
  let '(input_file_relative_no_ext, _) :=
    PosixPath.splitext input_file_relative_name in
  let input_file_name_no_ext := PosixPath.basename input_file_relative_no_ext in
  let output_file_name := input_file_name_no_ext in
  match output_format with
  | PStr "json" => output_file_name +:+ ".mdm"
  | PStr "txt" => output_file_name +:+ ".txt"
  | _ => output_file_name
  end.

(** [x.name] *)
Definition name_of (x : param) : M string :=
  match x with
  | PFile f => ret (file_name f)
  | _ => raise AttributeError
  end.

(** [echo_result], lines 31-75. *)
Definition echo_result (function : fn) : fn :=
  fun args kwargs =>
    result <- function args kwargs;;
    context <- ask;;
    params <- get_params;;
    output_format <- match params !! "output_format" with
                     | Some x => ret x
                     | None => raise (KeyError "output_format")
                     end;;
    entry <- lookup_format output_format;;
    formatter <- match entry with
                 | PerCommand _ =>
                     subscript (format_of output_format) entry (command_name context)
                 | Uniform f => ret (ByFormat (format_of output_format), f)
                 end;;
    result <- (if String.eqb (command_name context) "enrich" then
                 (if negb (truthy (get params "output_file")) then
                    input_file_relative_name <- name_of (get params "input_file");;
                    f <- Click.open_file
                           (output_file_name input_file_relative_name output_format) "w";;
                    set_param "output_file" (PFile f)
                  else ret tt);;
                 txt <- match FORMATTERS !! "txt" with
                        | Some entry => ret entry
                        | None => raise (KeyError "txt")
                        end;;
                 details_formatter <- subscript "txt" txt "enrich_details";;
                 params <- get_params;;
                 output <- render (fst details_formatter) (snd details_formatter)
                             result (get_default params "verbose" (PBool false));;
                 console <- Click.open_file "-" "w";;
                 Click.echo (PyStr.strip PyStr.NL output) (PFile console);;
                 getitem result "message_data_model"
               else ret result);;
    params <- get_params;;
    output <- render (fst formatter) (snd formatter) result
                (get_default params "verbose" (PBool false));;
    console <- Click.open_file "-" "w";;
    Click.echo (PyStr.strip PyStr.NL output)
      (get_default params "output_file" (PFile console));;
    let file_name := get params "output_file" in
    (if truthy file_name then
       name <- name_of file_name;;
       Click.echo ("Output saved to " +:+ name) PNone
     else ret tt);;
    ret VNone.

(** [handle_exceptions], lines 90-110. *)
Definition handle_exceptions (function : fn) : fn :=
  fun args kwargs =>
    try (function args kwargs)
      (fun exception =>
         match exception with
         | RateLimitError a =>
             body <- index a 0;;
             detail <- getitem body "detail";;
             let error_message := "API error: " +:+ PyVal.str detail in
             emit (LogError error_message);;
             Click.exit (-1)
         | RequestFailure a =>
             body <- index a 1;;
             detail <- getitem body "detail";;
             let error_message := "API error: " +:+ PyVal.str detail in
             emit (LogError error_message);;
             Click.exit (-1)
         | RequestException text =>
             let error_message := "API error: " +:+ text in
             emit (LogError error_message);;
             Click.exit (-1)
         | e => raise e
         end).

(** [pass_api_client], lines 125-148. *)
Definition pass_api_client (function : fn) : fn :=
  fun args kwargs =>
    context <- ask;;
    params <- get_params;;
    let api_key := get params "api_key" in
    let config := of_str (config_api_key context) in
    api_key <- match api_key with
               | PNone =>
                   (if negb (truthy config) then
                      let prog_name := info_name context in
                      Click.echo (api_key_help prog_name) PNone;;
                      Click.exit (-1)
                    else ret tt);;
                   ret config
               | _ => ret api_key
               end;;
    emit (NewClient api_key);;
    function (Client api_key :: args) kwargs.

(** The subcommand a [*_command] decorator wraps: its outcome is a
    function of the arguments it is called with, and each call is
    recorded.  Every use of the API goes through it. *)
Definition subcommand (body : list posarg -> gmap string param -> outcome value) : fn :=
  fun args kwargs => emit (Invoke args kwargs);; lift (body args kwargs).

(** [enrich_command], lines 156-184: the innermost [wrapper], then the
    decorator stack, outermost first. *)
Definition enrich_wrapper (function : fn) : fn :=
  fun args kwargs => function args kwargs.

Definition enrich_command (function : fn) : fn :=
  pass_api_client
    (Click.pass_context
       (echo_result
          (handle_exceptions
             (enrich_wrapper function)))).

(** [analyze_command], lines 192-235. *)
Definition analyze_wrapper (function : fn) : fn :=
  fun args kwargs =>
    kwargs <- (if negb (truthy (get kwargs "detections_file"))
                  && negb (truthy (get kwargs "detection_str"))
               then
                 try (detections_file <- Click.open_file "detections.pql" "r";;
                      ret (<["detections_file" := PFile detections_file]> kwargs))
                   (fun e =>
                      match e with
                      | FileNotFoundError _ => raise MissingDetectionInput
                      | _ => raise e
                      end)
               else ret kwargs);;
    function args kwargs.

Definition analyze_command (function : fn) : fn :=
  pass_api_client
    (Click.pass_context
       (echo_result
          (handle_exceptions
             (analyze_wrapper function)))).

(** [query_command], lines 243-273. *)
Definition query_wrapper (function : fn) : fn :=
  fun args kwargs => function args kwargs.

Definition query_command (function : fn) : fn :=
  pass_api_client
    (Click.pass_context
       (echo_result
          (handle_exceptions
             (query_wrapper function)))).

(** [except RequestFailure] *)
Definition is_request_failure (e : exn) : bool :=
  match e with
  | RequestFailure _ => true
  | RateLimitError _ => rate_limit_is_request_failure
  | _ => false
  end.

(** [not_implemented_command], lines 305-313; [function_name] is
    [function.__name__]. *)
Definition not_implemented_command (function_name : string) : fn :=
  pass_api_client
    (fun args kwargs =>
       match args with
       | Client api_key :: _ =>
           let command_name := function_name in
           try (emit (Probe api_key command_name);;
                lift (not_implemented api_key command_name);;
                ret VNone)
             (fun e =>
                if is_request_failure e
                then raise (SubcommandNotImplemented command_name)
                else raise e)
       | Ctx :: _ => raise AttributeError
       | [] => raise TypeError
       end).

(** ** Running a command

    What click does around the callback of a command: the parsed options
    become [context.params] and the keyword arguments; on return the
    process exits with 0, [Exit] gives its code, a [ClickException] is
    shown on standard error and exits with 1, anything else ends the
    interpreter with a traceback and status 1. *)

Record process : Type := {
  exit_code : Z;
  events : list event
}.

Definition main (command : fn) (w : world) (options : gmap string param) : process :=
  match command [] options w {| params := options; trace := [] |} with
  | (Return _, st) => {| exit_code := 0; events := trace st |}
  | (Raise (Exit code), st) => {| exit_code := code; events := trace st |}
  | (Raise e, st) =>
      match message e with
      | Some m =>
          {| exit_code := 1;
             events := trace st ++ [Echo Stderr ("Error: " +:+ m +:+ PyStr.NL)] |}
      | None => {| exit_code := 1; events := trace st ++ [Traceback e] |}
      end
  end.

End Decorators.

(** ** The option declarations of the three commands *)

Inductive output_format : Type := json | txt.

Definition format_name (f : output_format) : string :=
  match f with
  | json => "json"
  | txt => "txt"
  end.

(** [enrich -k -i -o -f] *)
Definition enrich_options (api_key : option string) (input_file : file)
    (output_file : option file) (f : output_format) : gmap string param :=
  <["api_key" := of_str api_key]>
    (<["input_file" := PFile input_file]>
       (<["output_file" := of_file output_file]>
          (<["output_format" := PStr (format_name f)]> ∅))).

(** [analyze -k -i -D -d -o -f] *)
Definition analyze_options (api_key : option string) (input_file : file)
    (detections_file : option file) (detection_str : option string)
    (output_file : option file) (f : output_format) : gmap string param :=
  <["api_key" := of_str api_key]>
    (<["input_file" := PFile input_file]>
       (<["detections_file" := of_file detections_file]>
          (<["detection_str" := of_str detection_str]>
             (<["output_file" := of_file output_file]>
                (<["output_format" := PStr (format_name f)]> ∅))))).

(** [query -k -i -q -o -f] *)
Definition query_options (api_key : option string) (input_file : file)
    (query : string) (output_file : option file) (f : output_format)
    : gmap string param :=
  <["api_key" := of_str api_key]>
    (<["input_file" := PFile input_file]>
       (<["query" := PStr query]>
          (<["output_file" := of_file output_file]>
             (<["output_format" := PStr (format_name f)]> ∅)))).

(** ** Vocabulary of the statements *)

(** The state after more events. *)
Definition record (st : state) (l : list event) : state :=
  {| params := params st; trace := trace st ++ l |}.

(** The key [pass_api_client] ends up with, if any: the [-k] value when
    there is one, else the configured key when it is not empty. *)
Definition resolved_key (options : gmap string param) (config : option string)
    : option param :=
  match get options "api_key" with
  | PNone => if truthy (of_str config) then Some (of_str config) else None
  | k => Some k
  end.

(** The key as the specification words it: the highest-precedence
    non-empty source, the flag before the persisted key. *)
Definition highest_non_empty (flag config : option string) : option string :=
  match flag with
  | Some (String c s) => Some (String c s)
  | _ =>
      match config with
      | Some (String c s) => Some (String c s)
      | _ => None
      end
  end.

(** The rendering function [echo_result] resolves for a format and a
    command, when both lookups succeed. *)
Definition resolve (FORMATTERS : gmap string formatter_entry)
    (output_format command : string) : option (formatter_key * renderer) :=
  match FORMATTERS !! output_format with
  | Some (Uniform f) => Some (ByFormat output_format, f)
  | Some (PerCommand d) =>
      match d !! command with
      | Some f => Some (ByCommand output_format command, f)
      | None => None
      end
  | None => None
  end.

(** [FORMATTERS["txt"]["enrich_details"]], when it is there. *)
Definition details (FORMATTERS : gmap string formatter_entry) : option renderer :=
  match FORMATTERS !! "txt" with
  | Some (PerCommand d) => d !! "enrich_details"
  | _ => None
  end.

(** The confirmation line that follows output to a file. *)
Definition saved (output_file : option file) : list event :=
  match output_file with
  | Some f => [Echo Stdout ("Output saved to " +:+ file_name f +:+ PyStr.NL)]
  | None => []
  end.

(** The three failures [handle_exceptions] classifies, with the detail
    each one carries: [args[0]["detail"]], [args[1]["detail"]], and the
    text of the error. *)
Definition detail_of (e : exn) : option string :=
  match e with
  | RateLimitError (VDict body :: _) =>
      PyVal.str <$> PyVal.assoc "detail" body
  | RequestFailure (_ :: VDict body :: _) =>
      PyVal.str <$> PyVal.assoc "detail" body
  | RequestException text => Some text
  | _ => None
  end.

(** The calls to rendering functions in a trace, in order. *)
Fixpoint renders (l : list event) : list (formatter_key * value * param) :=
  match l with
  | [] => []
  | Render key result verbose :: r => (key, result, verbose) :: renders r
  | _ :: r => renders r
  end.

(** Everything echoed to a file, in order. *)
Fixpoint echoed (f : file) (l : list event) : list string :=
  match l with
  | [] => []
  | Echo g text :: r =>
      match f, g with
      | Stdin, Stdin | Stdout, Stdout | Stderr, Stderr => text :: echoed f r
      | Path p, Path q => if String.eqb p q then text :: echoed f r else echoed f r
      | _, _ => echoed f r
      end
  | _ :: r => echoed f r
  end.

(** The calls of the subcommand body (the only user of the API) and of
    the probe in a trace. *)
Fixpoint api_calls (l : list event) : nat :=
  match l with
  | [] => 0
  | Invoke _ _ :: r => S (api_calls r)
  | Probe _ _ :: r => S (api_calls r)
  | _ :: r => api_calls r
  end.

(** The keys clients were built with. *)
Fixpoint client_keys (l : list event) : list param :=
  match l with
  | [] => []
  | NewClient k :: r => k :: client_keys r
  | _ :: r => client_keys r
  end.

(** A rendering call is made with [verbose=False]. *)
Definition verbose_off (e : event) : Prop :=
  match e with
  | Render _ _ verbose => verbose = PBool false
  | _ => True
  end.

(** The invariant of the pipeline: [context.params] has no ["verbose"]
    entry, every rendering call so far had [verbose=False], and the trace
    has a property [E] that further events do not undo.  A computation
    keeps the invariant when it holds afterwards whenever it held
    before. *)
Definition quiet (E : list event -> Prop) (st : state) : Prop :=
  params st !! "verbose" = None /\ Forall verbose_off (trace st) /\ E (trace st).

Definition keeps (E : list event -> Prop) {A} (m : M A) : Prop :=
  forall w st, quiet E st -> quiet E (snd (m w st)).

(** The trace starts with the events [l]. *)
Definition starts_with (l t : list event) : Prop :=
  exists rest, t = l ++ rest.

(** [analyze] was given a detections file or a raw detection. *)
Definition detections_given (kwargs : gmap string param) : bool :=
  truthy (get kwargs "detections_file") || truthy (get kwargs "detection_str").

(** Every client of the run was bound to a non-empty key. *)
Definition facade_key_nonempty (p : process) : Prop :=
  Forall (fun k => truthy k = true) (client_keys (events p)).

(** The extension [enrich] appends. *)
Definition extension (f : output_format) : string :=
  match f with
  | json => ".mdm"
  | txt => ".txt"
  end.

(** An event that is not a use of the API: neither the construction of
    the client, nor a call of the subcommand body or of the probe. *)
Definition no_api (e : event) : Prop :=
  match e with
  | NewClient _ | Invoke _ _ | Probe _ _ => False
  | _ => True
  end.

(** A computation that only adds events that are no use of the API, and
    leaves every entry of [context.params] but ["output_file"] as it
    is. *)
Definition output_only {A} (m : M A) : Prop :=
  forall w st,
    (exists l, trace (snd (m w st)) = trace st ++ l /\ Forall no_api l)
    /\ forall key : string,
        key <> "output_file" -> params (snd (m w st)) !! key = params st !! key.

(** An event of a failed run: a log line, the error click prints on
    standard error, or a traceback. *)
Definition failure_event (e : event) : Prop :=
  match e with
  | LogError _ | Echo Stderr _ | Traceback _ => True
  | _ => False
  end.

(** The paths opened in a trace, in order. *)
Fixpoint opened (l : list event) : list string :=
  match l with
  | [] => []
  | OpenFile path _ :: r => path :: opened r
  | _ :: r => opened r
  end.

(** ** Sample invocations *)

Module Sample.
Import PyStr.

(** Renderers that pad their text with newlines, some on both sides. *)
Definition json_renderer : renderer := fun v _ => NL +:+ PyVal.repr v +:+ NL.
Definition enrich_renderer : renderer := fun v _ => "mdm " +:+ PyVal.repr v.
Definition details_renderer : renderer :=
  fun v _ => "details " +:+ PyVal.repr v +:+ NL +:+ NL.
Definition analyze_renderer : renderer :=
  fun v _ => "analysis " +:+ PyVal.str v +:+ NL.
Definition query_renderer : renderer :=
  fun v _ => NL +:+ NL +:+ "rows " +:+ PyVal.str v +:+ NL.

(** A registry of the shape [echo_result] expects. *)
Definition formatters : gmap string formatter_entry :=
  <["json" := Uniform json_renderer]>
    (<["txt" :=
         PerCommand
           (<["enrich" := enrich_renderer]>
              (<["enrich_details" := details_renderer]>
                 (<["analyze" := analyze_renderer]>
                    (<["query" := query_renderer]> ∅))))]> ∅).

Definition world_of (command : string) (config : option string) (pql : bool) : world :=
  {| info_name := "sublime";
     command_name := command;
     config_api_key := config;
     open_read := fun path =>
                    if pql && String.eqb path "detections.pql"
                    then Readable else Missing |}.

(** A world in which [detections.pql] is a directory. *)
Definition world_with_directory (command : string) (config : option string) : world :=
  {| info_name := "sublime";
     command_name := command;
     config_api_key := config;
     open_read := fun path =>
                    if String.eqb path "detections.pql"
                    then Unreadable "IsADirectoryError" else Missing |}.

Definition mdm : value := VDict [("subject", VStr "hi")].

Definition enriched : list (string * value) :=
  [("message_data_model", mdm); ("details", VList [VInt 1; VInt 2])].

Definition returns (v : value) : list posarg -> gmap string param -> outcome value :=
  fun _ _ => Return v.

Definition fails (e : exn) : list posarg -> gmap string param -> outcome value :=
  fun _ _ => Raise e.

Definition probe_fails (e : exn) : param -> string -> outcome value :=
  fun _ _ => Raise e.

End Sample.

(** * Properties *)

(** ** Strings *)

Section StringFacts.
Import PyStr.

Lemma append_nil (s : string) : EmptyString +:+ s = s.
Proof. reflexivity. Qed.

Lemma append_cons (c : ascii) (r s : string) : String c r +:+ s = String c (r +:+ s).
Proof. reflexivity. Qed.

Lemma append_empty_r (s : string) : s +:+ EmptyString = s.
Proof.
  induction s as [|c r IH]; [reflexivity|].
  rewrite append_cons. now rewrite IH.
Qed.

Lemma append_assoc (a b c : string) : (a +:+ b) +:+ c = a +:+ b +:+ c.
Proof.
  induction a as [|x r IH]; [reflexivity|].
  rewrite !append_cons. now rewrite IH.
Qed.

Lemma lstrip_split (chars s : string) :
  exists a, s = a +:+ lstrip chars s /\ all_in chars a = true.
Proof.
  induction s as [|c r [a [Ha Hin]]]; simpl.
  - now exists EmptyString.
  - destruct (mem c chars) eqn:Hc.
    + exists (String c a). rewrite append_cons. simpl. rewrite Hc, Hin.
      now rewrite <- Ha.
    + now exists EmptyString.
Qed.

Lemma lstrip_head (chars s : string) : starts_in chars (lstrip chars s) = false.
Proof.
  induction s as [|c r IH]; simpl; [reflexivity|].
  destruct (mem c chars) eqn:Hc; simpl; [exact IH | exact Hc].
Qed.

Lemma rstrip_split (chars s : string) :
  exists b, s = rstrip chars s +:+ b /\ all_in chars b = true.
Proof.
  induction s as [|c r [b [Hb Hin]]]; simpl.
  - now exists EmptyString.
  - destruct (rstrip chars r) as [|c' r'] eqn:Hr.
    + rewrite append_nil in Hb. subst b.
      destruct (mem c chars) eqn:Hc.
      * exists (String c r). simpl. now rewrite Hc, Hin.
      * exists r. now rewrite append_cons.
    + exists b. rewrite append_cons. now rewrite <- Hb.
Qed.

Lemma rstrip_tail (chars s : string) : ends_in chars (rstrip chars s) = false.
Proof.
  induction s as [|c r IH]; simpl; [reflexivity|].
  destruct (rstrip chars r) as [|c' r'] eqn:Hr.
  - destruct (mem c chars) eqn:Hc; simpl; [reflexivity | exact Hc].
  - exact IH.
Qed.

Lemma rstrip_head (chars s : string) :
  starts_in chars s = false -> starts_in chars (rstrip chars s) = false.
Proof.
  destruct s as [|c r]; simpl; [reflexivity|]. intros Hc.
  destruct (rstrip chars r); [rewrite Hc|]; simpl; auto.
Qed.

(** [strip] removes characters of [chars] from both ends and nothing
    else. *)
Lemma strip_split (chars s : string) :
  exists a b, s = a +:+ strip chars s +:+ b
              /\ all_in chars a = true /\ all_in chars b = true
              /\ starts_in chars (strip chars s) = false
              /\ ends_in chars (strip chars s) = false.
Proof.
  destruct (lstrip_split chars s) as [a [Ha Hina]].
  destruct (rstrip_split chars (lstrip chars s)) as [b [Hb Hinb]].
  exists a, b. unfold strip. repeat split; auto.
  - now rewrite <- Hb.
  - apply rstrip_head, lstrip_head.
  - apply rstrip_tail.
Qed.

(** Without a leading character of [chars], [strip] is [rstrip]. *)
Lemma strip_rstrip (chars s : string) :
  starts_in chars s = false -> strip chars s = rstrip chars s.
Proof.
  unfold strip. destruct s as [|c r]; [reflexivity|].
  simpl starts_in. intros Hc. simpl lstrip. now rewrite Hc.
Qed.

End StringFacts.

(** ** Paths *)

Section PathFacts.
Import PyStr PosixPath.

Lemma len_cons (a : ascii) (r : string) : len (String a r) = len r + 1.
Proof. unfold len. simpl String.length. lia. Qed.

Lemma len_nonneg (s : string) : 0 <= len s.
Proof. unfold len. lia. Qed.

Lemma bound_cons (a : ascii) (r : string) (i : Z) :
  0 <= i -> bound (String a r) (i + 1) = S (bound r i).
Proof.
  intros Hi. unfold bound. rewrite len_cons.
  destruct (Z.ltb_spec (i + 1) 0), (Z.ltb_spec i 0); try lia.
  pose proof (len_nonneg r). lia.
Qed.

Lemma bound_0 (s : string) : bound s 0 = 0%nat.
Proof. unfold bound. simpl. pose proof (len_nonneg s). lia. Qed.

Lemma bound_len (s : string) : bound s (len s) = String.length s.
Proof.
  unfold bound. pose proof (len_nonneg s).
  destruct (Z.ltb_spec (len s) 0); [lia|]. unfold len in *. lia.
Qed.

Lemma substring_all (s : string) : String.substring 0 (String.length s) s = s.
Proof. induction s as [|c r IH]; simpl; congruence. Qed.

Lemma substring_none (s : string) : String.substring 0 0 s = EmptyString.
Proof. now destruct s. Qed.

Lemma slice_cons (a : ascii) (r : string) (i j : Z) :
  0 <= i -> 0 <= j -> slice (String a r) (i + 1) (j + 1) = slice r i j.
Proof. intros Hi Hj. unfold slice. now rewrite !bound_cons. Qed.

Lemma slice_to_0 (s : string) : slice_to s 0 = EmptyString.
Proof. unfold slice_to, slice. rewrite bound_0. apply substring_none. Qed.

Lemma slice_to_cons (a : ascii) (r : string) (j : Z) :
  0 <= j -> slice_to (String a r) (j + 1) = String a (slice_to r j).
Proof.
  intros Hj. unfold slice_to, slice. rewrite bound_cons, !bound_0 by assumption.
  simpl. now rewrite Nat.sub_0_r.
Qed.

Lemma slice_from_0 (s : string) : slice_from s 0 = s.
Proof.
  unfold slice_from, slice. rewrite bound_0, bound_len, Nat.sub_0_r.
  apply substring_all.
Qed.

Lemma slice_from_cons (a : ascii) (r : string) (i : Z) :
  0 <= i -> slice_from (String a r) (i + 1) = slice_from r i.
Proof.
  intros Hi. unfold slice_from. rewrite len_cons.
  apply slice_cons; [assumption | apply len_nonneg].
Qed.

Lemma slice_empty (i j : Z) : slice EmptyString i j = EmptyString.
Proof. unfold slice. now destruct (bound _ i), (_ - _)%nat. Qed.

Lemma slice_to_from (p : string) (j : Z) :
  0 <= j -> slice_to p j +:+ slice_from p j = p.
Proof.
  revert j. induction p as [|a r IH]; intros j Hj.
  - unfold slice_to, slice_from. now rewrite !slice_empty.
  - destruct (Z.eq_dec j 0) as [->|Hne].
    + now rewrite slice_to_0, slice_from_0.
    + replace j with (j - 1 + 1) by lia.
      rewrite slice_to_cons, slice_from_cons, append_cons by lia.
      now rewrite IH by lia.
Qed.

Lemma rfind_cons (c a : ascii) (r : string) :
  rfind c (String a r) =
  if 0 <=? rfind c r then rfind c r + 1 else if Ascii.eqb a c then 0 else -1.
Proof. reflexivity. Qed.

Lemma rfind_ge (c : ascii) (s : string) : -1 <= rfind c s.
Proof.
  induction s as [|a r IH]; [simpl; lia|]. rewrite rfind_cons.
  destruct (Z.leb_spec 0 (rfind c r)); [lia|]. destruct (Ascii.eqb a c); lia.
Qed.

Lemma rfind_append_none (c : ascii) (x y : string) :
  rfind c (x +:+ y) = -1 -> rfind c x = -1.
Proof.
  induction x as [|a r IH]; [reflexivity|].
  rewrite append_cons, !rfind_cons.
  destruct (Z.leb_spec 0 (rfind c (r +:+ y))) as [Hge|Hlt].
  - intros H. pose proof (rfind_ge c (r +:+ y)). lia.
  - rewrite IH by (pose proof (rfind_ge c (r +:+ y)); lia). simpl. auto.
Qed.

Lemma splitext_loop_cons (a : ascii) (r : string) (n : nat) (i j : Z) :
  0 <= i -> 0 <= j ->
  splitext_loop (String a r) n (i + 1) (j + 1) =
  (String a (fst (splitext_loop r n i j)), snd (splitext_loop r n i j)).
Proof.
  revert i. induction n as [|n IH]; intros i Hi Hj; simpl.
  - now rewrite !slice_to_0.
  - rewrite slice_cons by lia.
    destruct (negb (String.eqb (slice r i (i + 1)) ".")).
    + simpl. now rewrite slice_to_cons, slice_from_cons.
    + apply IH; lia.
Qed.

Lemma splitext_loop_prefix (p : string) (n : nat) (i j : Z) :
  0 <= j -> exists t, p = fst (splitext_loop p n i j) +:+ t.
Proof.
  intros Hj. revert i. induction n as [|n IH]; intros i; simpl.
  - exists EmptyString. now rewrite append_empty_r.
  - destruct (negb (String.eqb (slice p i (i + 1)) ".")).
    + exists (slice_from p j). simpl. now rewrite slice_to_from.
    + apply IH.
Qed.

(** The root [splitext] returns is a prefix of the path. *)
Lemma splitext_prefix (p : string) : exists t, p = fst (splitext p) +:+ t.
Proof.
  unfold splitext. destruct (Z.ltb_spec (rfind "/" p) (rfind "." p)).
  - apply splitext_loop_prefix. pose proof (rfind_ge "/" p). lia.
  - exists EmptyString. simpl. now rewrite append_empty_r.
Qed.

Lemma splitext_cons_sep (a : ascii) (r : string) :
  0 <= rfind "/" r ->
  splitext (String a r) = (String a (fst (splitext r)), snd (splitext r)).
Proof.
  intros Hsep. unfold splitext. rewrite !rfind_cons.
  destruct (Z.leb_spec 0 (rfind "/" r)); [|lia].
  destruct (Z.leb_spec 0 (rfind "." r)) as [Hdot|Hdot].
  - destruct (Z.ltb_spec (rfind "/" r) (rfind "." r)),
             (Z.ltb_spec (rfind "/" r + 1) (rfind "." r + 1)); try lia.
    + replace (rfind "." r + 1 - (rfind "/" r + 1 + 1))
        with (rfind "." r - (rfind "/" r + 1)) by lia.
      apply splitext_loop_cons; lia.
    + simpl. now rewrite !slice_to_0.
  - destruct (Z.ltb_spec (rfind "/" r) (rfind "." r)); [lia|].
    destruct (Ascii.eqb a ".").
    + destruct (Z.ltb_spec (rfind "/" r + 1) 0); [lia|].
      simpl. now rewrite !slice_to_0.
    + destruct (Z.ltb_spec (rfind "/" r + 1) (-1)); [lia|].
      simpl. now rewrite !slice_to_0.
Qed.

Lemma splitext_slash (r : string) :
  rfind "/" r = -1 ->
  splitext (String "/" r) = (String "/" (fst (splitext r)), snd (splitext r)).
Proof.
  intros Hsep.
  assert (rfind "/" (String "/" r) = 0) as Hs
    by (rewrite rfind_cons, Hsep; reflexivity).
  assert (rfind "." (String "/" r) =
          if 0 <=? rfind "." r then rfind "." r + 1 else -1) as Hd
    by (rewrite rfind_cons; reflexivity).
  unfold splitext. rewrite Hs, Hd, Hsep.
  destruct (Z.leb_spec 0 (rfind "." r)) as [Hdot|Hdot].
  - destruct (Z.ltb_spec 0 (rfind "." r + 1)), (Z.ltb_spec (-1) (rfind "." r));
      try lia.
    replace (rfind "." r + 1 - (0 + 1)) with (rfind "." r - (-1 + 1)) by lia.
    apply (splitext_loop_cons "/" r _ 0 (rfind "." r)); lia.
  - destruct (Z.ltb_spec (-1) (rfind "." r)); [lia|].
    simpl. now rewrite !slice_to_0.
Qed.

(** The root keeps the last separator where it was. *)
Lemma rfind_sep_root (p : string) : rfind "/" (fst (splitext p)) = rfind "/" p.
Proof.
  induction p as [|a r IH]; [reflexivity|].
  destruct (Z.leb_spec 0 (rfind "/" r)) as [Hsep|Hsep].
  - rewrite splitext_cons_sep by assumption. simpl fst.
    rewrite !rfind_cons, IH. reflexivity.
  - assert (rfind "/" r = -1) as Hr by (pose proof (rfind_ge "/" r); lia).
    destruct (Ascii.eqb_spec a "/") as [->|Hne].
    + rewrite splitext_slash by assumption. simpl fst.
      rewrite !rfind_cons, IH. reflexivity.
    + assert (rfind "/" (String a r) = -1) as Hp.
      { rewrite rfind_cons, Hr. simpl. apply Ascii.eqb_neq in Hne. now rewrite Hne. }
      rewrite Hp. destruct (splitext_prefix (String a r)) as [t Ht].
      apply rfind_append_none with (y := t). now rewrite <- Ht.
Qed.

Lemma basename_nosep (s : string) : rfind "/" s = -1 -> basename s = s.
Proof. intros H. unfold basename. rewrite H. apply slice_from_0. Qed.

Lemma basename_cons_sep (a : ascii) (r : string) :
  0 <= rfind "/" r -> basename (String a r) = basename r.
Proof.
  intros H. unfold basename. rewrite rfind_cons.
  destruct (Z.leb_spec 0 (rfind "/" r)); [|lia].
  apply slice_from_cons. lia.
Qed.

Lemma basename_slash (r : string) :
  rfind "/" r = -1 -> basename (String "/" r) = r.
Proof.
  intros H. unfold basename. rewrite rfind_cons, H. simpl.
  change 1 with (0 + 1). rewrite slice_from_cons by lia. apply slice_from_0.
Qed.

(** Dropping the extension and taking the base name commute: what
    [echo_result] computes is the base name without its extension. *)
Lemma basename_splitext (p : string) :
  basename (fst (splitext p)) = fst (splitext (basename p)).
Proof.
  induction p as [|a r IH]; [reflexivity|].
  destruct (Z.leb_spec 0 (rfind "/" r)) as [Hsep|Hsep].
  - rewrite splitext_cons_sep by assumption. simpl fst.
    rewrite !basename_cons_sep; [exact IH | assumption |].
    now rewrite rfind_sep_root.
  - assert (rfind "/" r = -1) as Hr by (pose proof (rfind_ge "/" r); lia).
    destruct (Ascii.eqb_spec a "/") as [->|Hne].
    + rewrite splitext_slash by assumption. simpl fst.
      rewrite !basename_slash; [reflexivity | assumption |].
      now rewrite rfind_sep_root.
    + assert (rfind "/" (String a r) = -1) as Hp.
      { rewrite rfind_cons, Hr. simpl. apply Ascii.eqb_neq in Hne. now rewrite Hne. }
      rewrite (basename_nosep (String a r)) by assumption.
      apply basename_nosep. now rewrite rfind_sep_root.
Qed.

End PathFacts.

(** ** The functions at work *)

Example splitext_report :
  PosixPath.splitext "mail/report.eml" = ("mail/report", ".eml").
Proof. reflexivity. Qed.

Example splitext_hidden : PosixPath.splitext "mail/.rc" = ("mail/.rc", EmptyString).
Proof. reflexivity. Qed.

Example splitext_dotted_directory :
  PosixPath.splitext "mail.d/report" = ("mail.d/report", EmptyString).
Proof. reflexivity. Qed.

Example basename_report : PosixPath.basename "mail/report.eml" = "report.eml".
Proof. reflexivity. Qed.

Example report_json : output_file_name "report.eml" (PStr "json") = "report.mdm".
Proof. reflexivity. Qed.

Example report_txt : output_file_name "report.eml" (PStr "txt") = "report.txt".
Proof. reflexivity. Qed.

Example archive_json :
  output_file_name "in.box/mail.tar.eml" (PStr "json") = "mail.tar.mdm".
Proof. reflexivity. Qed.

Example strip_both_ends :
  PyStr.strip PyStr.NL (PyStr.NL +:+ "a" +:+ PyStr.NL +:+ "b" +:+ PyStr.NL +:+ PyStr.NL)
  = "a" +:+ PyStr.NL +:+ "b".
Proof. reflexivity. Qed.

Example repr_setup : PyStr.repr "sublime setup" = "'sublime setup'".
Proof. reflexivity. Qed.

Example repr_apostrophe :
  PyStr.repr "it's"
  = String PyStr.dquote ("it's" +:+ String PyStr.dquote EmptyString).
Proof. reflexivity. Qed.

Example str_of_detail :
  PyVal.str (VDict [("code", VInt 42); ("why", VList [VStr "a"; VNone])])
  = "{'code': 42, 'why': ['a', None]}".
Proof. reflexivity. Qed.

Example missing_key_run :
  main (enrich_command Sample.formatters (subcommand (Sample.returns VNone)))
    (Sample.world_of "enrich" None false)
    (enrich_options None (Path "report.eml") None json)
  = {| exit_code := -1;
       events := [Echo Stdout (api_key_help "sublime" +:+ PyStr.NL)] |}.
Proof. reflexivity. Qed.

(** ** The decorators, one at a time *)

Section DecoratorFacts.
Import PyStr.

Variable FORMATTERS : gmap string formatter_entry.

(** [pass_api_client] either builds the client with the resolved key and
    calls on, or prints the help text and exits with -1. *)
Lemma pass_api_client_run (function : fn) args kwargs w st :
  pass_api_client function args kwargs w st =
  match resolved_key (params st) (config_api_key w) with
  | Some k => function (Client k :: args) kwargs w (record st [NewClient k])
  | None =>
      (Raise (Exit (-1)),
       record st [Echo Stdout (api_key_help (info_name w) +:+ NL)])
  end.
Proof.
  unfold pass_api_client, resolved_key, bind, ask, get_params, ret.
  destruct (get (params st) "api_key") eqn:Hk; try reflexivity.
  destruct (truthy (of_str (config_api_key w))); reflexivity.
Qed.

Lemma handle_exceptions_return (function : fn) args kwargs w st st' r :
  function args kwargs w st = (Return r, st') ->
  handle_exceptions function args kwargs w st = (Return r, st').
Proof. intros H. unfold handle_exceptions, try. now rewrite H. Qed.

Lemma handle_exceptions_classified (function : fn) args kwargs w st st' e detail :
  function args kwargs w st = (Raise e, st') ->
  detail_of e = Some detail ->
  handle_exceptions function args kwargs w st =
  (Raise (Exit (-1)), record st' [LogError ("API error: " +:+ detail)]).
Proof.
  intros H Hd. unfold handle_exceptions, try. rewrite H.
  destruct e as [a|a|text| | | | | | | | |]; try discriminate Hd.
  - destruct a as [|[| | | | |body] rest]; try discriminate Hd.
    simpl in Hd. unfold bind, index, getitem. simpl.
    destruct (PyVal.assoc "detail" body) as [x|]; [|discriminate Hd].
    simpl in Hd. injection Hd as <-. reflexivity.
  - destruct a as [|a0 [|[| | | | |body] rest]]; try discriminate Hd.
    simpl in Hd. unfold bind, index, getitem. simpl.
    destruct (PyVal.assoc "detail" body) as [x|]; [|discriminate Hd].
    simpl in Hd. injection Hd as <-. reflexivity.
  - simpl in Hd. injection Hd as <-. reflexivity.
Qed.

(** Any other exception passes through [handle_exceptions]. *)
Lemma handle_exceptions_other (function : fn) args kwargs w st st' e :
  function args kwargs w st = (Raise e, st') ->
  match e with
  | RateLimitError _ | RequestFailure _ | RequestException _ => False
  | _ => True
  end ->
  handle_exceptions function args kwargs w st = (Raise e, st').
Proof.
  intros H He. unfold handle_exceptions, try. rewrite H.
  destruct e; try contradiction; reflexivity.
Qed.

(** A payload without the detail makes the handler itself fail: nothing
    is logged. *)
Lemma handle_exceptions_no_detail (function : fn) args kwargs w st st' :
  function args kwargs w st = (Raise (RateLimitError []), st') ->
  handle_exceptions function args kwargs w st = (Raise IndexError, st').
Proof. intros H. unfold handle_exceptions, try. now rewrite H. Qed.

Lemma echo_result_raise (function : fn) args kwargs w st st' e :
  function args kwargs w st = (Raise e, st') ->
  echo_result FORMATTERS function args kwargs w st = (Raise e, st').
Proof. intros H. unfold echo_result, bind. now rewrite H. Qed.

Lemma get_lookup (d : gmap string param) (key : string) (x : param) :
  d !! key = Some x -> get d key = x.
Proof. unfold get. now intros ->. Qed.

Lemma of_file_truthy (o : option file) :
  truthy (of_file o) = match o with Some _ => true | None => false end.
Proof. now destruct o. Qed.

(** [echo_result] for a command other than [enrich]. *)
Lemma echo_result_plain (function : fn) args kwargs w st st' result
    (fmt : string) key f (o : option file) :
  function args kwargs w st = (Return result, st') ->
  String.eqb (command_name w) "enrich" = false ->
  params st' !! "output_format" = Some (PStr fmt) ->
  params st' !! "output_file" = Some (of_file o) ->
  resolve FORMATTERS fmt (command_name w) = Some (key, f) ->
  let verbose := get_default (params st') "verbose" (PBool false) in
  echo_result FORMATTERS function args kwargs w st =
  (Return VNone,
   record st'
     ([Render key result verbose;
       Echo (default Stdout o) (strip NL (f result verbose) +:+ NL)]
      ++ saved o)).
Proof.
  intros H Hcmd Hfmt Hout Hres verbose.
  unfold echo_result, bind, ask, get_params, ret. rewrite H, Hfmt.
  unfold lookup_format, resolve in *.
  destruct (FORMATTERS !! fmt) as [[g|d]|] eqn:HF; try discriminate Hres.
  - injection Hres as <- <-. rewrite Hcmd. simpl.
    unfold get_default, get. rewrite Hout. simpl.
    destruct o as [file|]; simpl; unfold record; simpl;
      rewrite <- ?app_assoc; reflexivity.
  - unfold subscript. simpl.
    destruct (d !! command_name w) as [g|]; [|discriminate Hres].
    injection Hres as <- <-. rewrite Hcmd. simpl.
    unfold get_default, get. rewrite Hout. simpl.
    destruct o as [file|]; simpl; unfold record; simpl;
      rewrite <- ?app_assoc; reflexivity.
Qed.

Lemma output_file_name_eq (name : string) (fmt : output_format) :
  output_file_name name (PStr (format_name fmt)) =
  PosixPath.basename (fst (PosixPath.splitext name)) +:+ extension fmt.
Proof.
  unfold output_file_name. destruct (PosixPath.splitext name) as [root ext].
  now destruct fmt.
Qed.

(** The synthesized name is never the dash that stands for standard
    output. *)
Lemma output_file_name_not_dash (name : string) (fmt : output_format) :
  String.eqb (output_file_name name (PStr (format_name fmt))) "-" = false.
Proof.
  rewrite output_file_name_eq.
  destruct (PosixPath.basename _) as [|c x].
  - now destruct fmt.
  - rewrite append_cons. simpl. destruct (Ascii.eqb c "-"); [|reflexivity].
    destruct x; [now destruct fmt | now rewrite append_cons].
Qed.

(** [echo_result] for [enrich], when every lookup succeeds. *)
Lemma echo_result_enrich (function : fn) args kwargs w st st'
    (fmt : output_format) key f df (i : file) (o : option file) d mdm :
  function args kwargs w st = (Return (VDict d), st') ->
  command_name w = "enrich" ->
  params st' !! "output_format" = Some (PStr (format_name fmt)) ->
  params st' !! "input_file" = Some (PFile i) ->
  params st' !! "output_file" = Some (of_file o) ->
  resolve FORMATTERS (format_name fmt) "enrich" = Some (key, f) ->
  details FORMATTERS = Some df ->
  PyVal.assoc "message_data_model" d = Some mdm ->
  let verbose := get_default (params st') "verbose" (PBool false) in
  let name := output_file_name (file_name i) (PStr (format_name fmt)) in
  let target := default (Path name) o in
  echo_result FORMATTERS function args kwargs w st =
  (Return VNone,
   {| params := match o with
                | Some _ => params st'
                | None => <["output_file" := PFile (Path name)]> (params st')
                end;
      trace := trace st'
               ++ match o with Some _ => [] | None => [OpenFile name "w"] end
               ++ [Render (ByCommand "txt" "enrich_details") (VDict d) verbose;
                   Echo Stdout (strip NL (df (VDict d) verbose) +:+ NL);
                   Render key mdm verbose;
                   Echo target (strip NL (f mdm verbose) +:+ NL);
                   Echo Stdout ("Output saved to " +:+ file_name target +:+ NL)] |}).
Proof.
  intros H Hcmd Hfmt Hin Hout Hres Hdet Hmdm verbose name target.
  assert (exists entry, FORMATTERS !! format_name fmt = Some entry /\
            match entry with
            | Uniform g => ret (ByFormat (format_name fmt), g)
            | PerCommand _ => subscript (format_name fmt) entry "enrich"
            end = ret (key, f)) as [entry [HF Hsel]].
  { unfold resolve in Hres.
    destruct (FORMATTERS !! format_name fmt) as [[g|dd]|]; try discriminate Hres.
    - injection Hres as <- <-. now eexists.
    - eexists; split; [reflexivity|]. unfold subscript.
      destruct (dd !! "enrich"); [|discriminate Hres]. now injection Hres as <- <-. }
  assert (exists dd, FORMATTERS !! "txt" = Some (PerCommand dd)
                     /\ dd !! "enrich_details" = Some df) as [dd [Htxt Hdd]].
  { unfold details in Hdet.
    destruct (FORMATTERS !! "txt") as [[g|dd]|]; try discriminate Hdet. eauto. }
  unfold echo_result, bind, ask, get_params. rewrite H, Hfmt.
  cbn [ret lookup_format format_of]. rewrite HF. cbn [ret].
  rewrite Hcmd. rewrite Hsel. cbn [ret String.eqb Ascii.eqb Bool.eqb].
  rewrite (get_lookup _ _ _ Hout), of_file_truthy.
  destruct o as [file|]; cbn [negb ret].
  - rewrite Htxt. cbn [ret subscript]. rewrite Hdd. cbn [ret].
    unfold render, bind, emit, ret, Click.open_file, Click.echo, getitem.
    cbn. rewrite Hmdm. cbn. unfold get_default, get. rewrite Hout. cbn.
    rewrite <- !app_assoc. reflexivity.
  - rewrite (get_lookup _ _ _ Hin). cbn [name_of ret].
    unfold Click.open_file at 1. fold name. unfold name at 1.
    rewrite output_file_name_not_dash. cbn [String.eqb Ascii.eqb Bool.eqb].
    unfold bind, emit, ret, set_param. cbn [params trace].
    rewrite Htxt. cbn [subscript]. rewrite Hdd.
    unfold render, bind, emit, ret, Click.open_file, Click.echo, getitem.
    cbn. rewrite Hmdm. cbn. unfold get_default, get.
    rewrite lookup_insert_eq, lookup_insert_ne by done. cbn.
    rewrite <- !app_assoc. reflexivity.
Qed.

End DecoratorFacts.

(** ** Whole invocations *)

Section PipelineFacts.
Import PyStr.

Variable FORMATTERS : gmap string formatter_entry.
Variable body : list posarg -> gmap string param -> outcome value.

Lemma subcommand_run args kwargs w st :
  subcommand body args kwargs w st =
  (body args kwargs, record st [Invoke args kwargs]).
Proof. unfold subcommand, bind, emit, lift. reflexivity. Qed.


(** A successful [enrich]. *)
Lemma enrich_success w key (i : file) (o : option file) (fmt : output_format)
    k rk f df d mdm :
  let options := enrich_options key i o fmt in
  let name := output_file_name (file_name i) (PStr (format_name fmt)) in
  let target := default (Path name) o in
  command_name w = "enrich" ->
  resolved_key options (config_api_key w) = Some k ->
  body [Ctx; Client k] options = Return (VDict d) ->
  resolve FORMATTERS (format_name fmt) "enrich" = Some (rk, f) ->
  details FORMATTERS = Some df ->
  PyVal.assoc "message_data_model" d = Some mdm ->
  main (enrich_command FORMATTERS (subcommand body)) w options =
  {| exit_code := 0;
     events :=
       [NewClient k; Invoke [Ctx; Client k] options]
       ++ match o with Some _ => [] | None => [OpenFile name "w"] end
       ++ [Render (ByCommand "txt" "enrich_details") (VDict d) (PBool false);
           Echo Stdout (strip NL (df (VDict d) (PBool false)) +:+ NL);
           Render rk mdm (PBool false);
           Echo target (strip NL (f mdm (PBool false)) +:+ NL);
           Echo Stdout ("Output saved to " +:+ file_name target +:+ NL)] |}.
Proof.
  intros options name target Hcmd Hkey Hbody Hres Hdet Hmdm.
  unfold main, enrich_command. rewrite pass_api_client_run.
  cbn [params]. rewrite Hkey. unfold Click.pass_context.
  set (st0 := record {| params := options; trace := [] |} [NewClient k]).
  rewrite (echo_result_enrich FORMATTERS _ _ _ w st0
             (record st0 [Invoke [Ctx; Client k] options])
             fmt rk f df i o d mdm); [reflexivity| |auto..].
  - apply handle_exceptions_return. unfold enrich_wrapper.
    rewrite subcommand_run, Hbody. reflexivity.
Qed.


(** A classified failure of the wrapped call, for any command. *)
Lemma stack_failure (wrapper : fn) w options k st' e detail :
  resolved_key options (config_api_key w) = Some k ->
  wrapper [Ctx; Client k] options w
    (record {| params := options; trace := [] |} [NewClient k])
  = (Raise e, st') ->
  detail_of e = Some detail ->
  main (pass_api_client
          (Click.pass_context
             (echo_result FORMATTERS (handle_exceptions wrapper)))) w options =
  {| exit_code := -1;
     events := trace st' ++ [LogError ("API error: " +:+ detail)] |}.
Proof.
  intros Hkey Hrun Hd.
  unfold main. rewrite pass_api_client_run. cbn [params]. rewrite Hkey.
  unfold Click.pass_context.
  rewrite (echo_result_raise FORMATTERS _ _ _ w _
             (record st' [LogError ("API error: " +:+ detail)]) (Exit (-1)));
    [reflexivity|].
  eapply handle_exceptions_classified; eauto.
Qed.

(** No key: the help text, status -1, and the wrapped function is never
    reached. *)
Lemma key_missing (function : fn) w options :
  resolved_key options (config_api_key w) = None ->
  main (pass_api_client function) w options =
  {| exit_code := -1;
     events := [Echo Stdout (api_key_help (info_name w) +:+ NL)] |}.
Proof.
  intros Hkey. unfold main. rewrite pass_api_client_run. cbn [params].
  now rewrite Hkey.
Qed.

Lemma analyze_wrapper_given (function : fn) args kwargs w st :
  detections_given kwargs = true ->
  analyze_wrapper function args kwargs w st = function args kwargs w st.
Proof.
  unfold detections_given, analyze_wrapper, bind. intros H.
  rewrite <- negb_orb, H. reflexivity.
Qed.

Lemma analyze_wrapper_default (function : fn) args kwargs w st :
  detections_given kwargs = false ->
  open_read w "detections.pql" = Readable ->
  analyze_wrapper function args kwargs w st =
  function args (<["detections_file" := PFile (Path "detections.pql")]> kwargs) w
    (record st [OpenFile "detections.pql" "r"]).
Proof.
  unfold detections_given, analyze_wrapper, bind. intros H Hex.
  rewrite <- negb_orb, H. cbn [negb].
  unfold try, Click.open_file, bind, ask, emit, ret. cbn. rewrite Hex.
  reflexivity.
Qed.

Lemma analyze_wrapper_missing (function : fn) args kwargs w st :
  detections_given kwargs = false ->
  open_read w "detections.pql" = Missing ->
  analyze_wrapper function args kwargs w st = (Raise MissingDetectionInput, st).
Proof.
  unfold detections_given, analyze_wrapper, bind. intros H Hex.
  rewrite <- negb_orb, H. cbn [negb].
  unfold try, Click.open_file, bind, ask, emit, ret. cbn. rewrite Hex.
  reflexivity.
Qed.

(** Only [FileNotFoundError] becomes the usage error: any other error of
    opening [detections.pql] leaves the wrapper as it is. *)
Lemma analyze_wrapper_unreadable (function : fn) args kwargs w st class :
  detections_given kwargs = false ->
  open_read w "detections.pql" = Unreadable class ->
  analyze_wrapper function args kwargs w st =
  (Raise (OtherError class "detections.pql"), st).
Proof.
  unfold detections_given, analyze_wrapper, bind. intros H Hex.
  rewrite <- negb_orb, H. cbn [negb].
  unfold try, Click.open_file, bind, ask, emit, ret. cbn. rewrite Hex.
  reflexivity.
Qed.

(** An exception that [handle_exceptions] does not classify leaves the
    whole stack as it is. *)
Lemma stack_other (wrapper : fn) w options k st' e :
  resolved_key options (config_api_key w) = Some k ->
  wrapper [Ctx; Client k] options w
    (record {| params := options; trace := [] |} [NewClient k])
  = (Raise e, st') ->
  match e with
  | RateLimitError _ | RequestFailure _ | RequestException _ => False
  | _ => True
  end ->
  pass_api_client
    (Click.pass_context
       (echo_result FORMATTERS (handle_exceptions wrapper))) [] options w
    {| params := options; trace := [] |} = (Raise e, st').
Proof.
  intros Hkey Hrun He. rewrite pass_api_client_run. cbn [params]. rewrite Hkey.
  unfold Click.pass_context. apply echo_result_raise.
  now apply handle_exceptions_other.
Qed.

End PipelineFacts.

(** ** What the pipeline never undoes *)

Section Invariant.

Variable FORMATTERS : gmap string formatter_entry.
Variable E : list event -> Prop.
Hypothesis E_app : forall t e, E t -> E (t ++ [e]).

Lemma keeps_ret {A} (a : A) : keeps E (ret a).
Proof. intros w st H. exact H. Qed.

Lemma keeps_raise {A} (e : exn) : keeps E (@raise A e).
Proof. intros w st H. exact H. Qed.

Lemma keeps_lift {A} (o : outcome A) : keeps E (lift o).
Proof. intros w st H. exact H. Qed.

Lemma keeps_exit {A} (code : Z) : keeps E (@Click.exit A code).
Proof. intros w st H. exact H. Qed.

Lemma keeps_emit (e : event) : verbose_off e -> keeps E (emit e).
Proof.
  intros He w st (Hp & Ht & HE). split; [exact Hp|]. simpl. split.
  - apply Forall_app. split; [exact Ht | now constructor].
  - now apply E_app.
Qed.

Lemma keeps_set_param (key : string) (x : param) :
  key <> "verbose" -> keeps E (set_param key x).
Proof.
  intros Hne w st (Hp & Ht). split; [|exact Ht]. simpl.
  now rewrite lookup_insert_ne.
Qed.

Lemma keeps_bind {A B} (m : M A) (k : A -> M B) :
  keeps E m -> (forall a, keeps E (k a)) -> keeps E (bind m k).
Proof.
  intros Hm Hk w st H. unfold bind. specialize (Hm w st H).
  destruct (m w st) as [[a|e] st']; simpl in *; [now apply Hk | exact Hm].
Qed.

Lemma keeps_try {A} (m : M A) (handler : exn -> M A) :
  keeps E m -> (forall e, keeps E (handler e)) -> keeps E (try m handler).
Proof.
  intros Hm Hh w st H. unfold try. specialize (Hm w st H).
  destruct (m w st) as [[a|e] st']; simpl in *; [exact Hm | now apply Hh].
Qed.

Lemma keeps_ask {B} (k : world -> M B) :
  (forall w, keeps E (k w)) -> keeps E (bind ask k).
Proof. intros Hk w st H. unfold bind, ask. now apply Hk. Qed.

(** What the continuation reads from [context.params] has no
    ["verbose"] entry. *)
Lemma keeps_params {B} (k : gmap string param -> M B) :
  (forall ps : gmap string param, ps !! "verbose" = None -> keeps E (k ps)) ->
  keeps E (bind get_params k).
Proof.
  intros Hk w st H. unfold bind, get_params. apply Hk; [apply H | exact H].
Qed.

Lemma keeps_echo (message : string) (f : param) : keeps E (Click.echo message f).
Proof.
  destruct f; simpl; try apply keeps_raise; now apply keeps_emit.
Qed.

Lemma keeps_open_file (path mode : string) : keeps E (Click.open_file path mode).
Proof.
  unfold Click.open_file. destruct (String.eqb path "-"); [apply keeps_ret|].
  destruct (String.eqb mode "w").
  - apply keeps_bind; [now apply keeps_emit | intros; apply keeps_ret].
  - apply keeps_ask. intros w. destruct (open_read w path).
    + apply keeps_bind; [now apply keeps_emit | intros; apply keeps_ret].
    + apply keeps_raise.
    + apply keeps_raise.
Qed.

Lemma keeps_render key f result (ps : gmap string param) :
  ps !! "verbose" = None ->
  keeps E (render key f result (get_default ps "verbose" (PBool false))).
Proof.
  intros Hp. unfold render, get_default. rewrite Hp. simpl.
  apply keeps_bind; [now apply keeps_emit | intros; apply keeps_ret].
Qed.

Lemma keeps_getitem (v : value) (key : string) : keeps E (getitem v key).
Proof.
  destruct v; simpl; try apply keeps_raise.
  destruct (PyVal.assoc key d); [apply keeps_ret | apply keeps_raise].
Qed.

Lemma keeps_index (args : list value) (i : nat) : keeps E (index args i).
Proof. unfold index. destruct (args !! i); [apply keeps_ret | apply keeps_raise]. Qed.

Lemma keeps_name_of (x : param) : keeps E (name_of x).
Proof. destruct x; simpl; try apply keeps_raise; apply keeps_ret. Qed.

Lemma keeps_lookup_format (x : param) : keeps E (lookup_format FORMATTERS x).
Proof.
  destruct x; simpl; try apply keeps_raise.
  destruct (FORMATTERS !! s); [apply keeps_ret | apply keeps_raise].
Qed.

Lemma keeps_subscript fmt entry command : keeps E (subscript fmt entry command).
Proof.
  destruct entry; simpl; [apply keeps_raise|].
  destruct (d !! command); [apply keeps_ret | apply keeps_raise].
Qed.

Ltac keeps_step :=
  lazymatch goal with
  | |- keeps E (bind get_params _) => apply keeps_params; intros ? ?
  | |- keeps E (bind ask _) => apply keeps_ask; intros ?
  | |- keeps E (bind _ _) => apply keeps_bind; [|intros ?]
  | |- keeps E (try _ _) => apply keeps_try; [|intros ?]
  | |- keeps E (ret _) => apply keeps_ret
  | |- keeps E (raise _) => apply keeps_raise
  | |- keeps E (lift _) => apply keeps_lift
  | |- keeps E (Click.exit _) => apply keeps_exit
  | |- keeps E (emit _) => apply keeps_emit; exact I
  | |- keeps E (set_param _ _) => apply keeps_set_param; discriminate
  | |- keeps E (render _ _ _ _) => apply keeps_render; assumption
  | |- keeps E (Click.echo _ _) => apply keeps_echo
  | |- keeps E (Click.open_file _ _) => apply keeps_open_file
  | |- keeps E (getitem _ _) => apply keeps_getitem
  | |- keeps E (index _ _) => apply keeps_index
  | |- keeps E (name_of _) => apply keeps_name_of
  | |- keeps E (lookup_format _ _) => apply keeps_lookup_format
  | |- keeps E (subscript _ _ _) => apply keeps_subscript
  | |- keeps E (match ?x with _ => _ end) => destruct x
  | |- keeps E (let _ := _ in _) => cbv zeta
  | |- keeps _ _ => solve [auto]
  end.

Lemma keeps_echo_result (function : fn) args kwargs :
  keeps E (function args kwargs) ->
  keeps E (echo_result FORMATTERS function args kwargs).
Proof.
  intros Hf. unfold echo_result. repeat keeps_step.
Qed.

Lemma keeps_handle_exceptions (function : fn) args kwargs :
  keeps E (function args kwargs) ->
  keeps E (handle_exceptions function args kwargs).
Proof.
  intros Hf. unfold handle_exceptions. apply keeps_try; [exact Hf|].
  intros e. repeat keeps_step.
Qed.

Lemma keeps_pass_api_client (function : fn) args kwargs :
  (forall a, keeps E (function a kwargs)) ->
  keeps E (pass_api_client function args kwargs).
Proof.
  intros Hf. unfold pass_api_client. repeat keeps_step.
Qed.

Lemma keeps_subcommand body args kwargs : keeps E (subcommand body args kwargs).
Proof. unfold subcommand. repeat keeps_step. Qed.

Lemma keeps_analyze_wrapper (function : fn) args kwargs :
  (forall kw, keeps E (function args kw)) ->
  keeps E (analyze_wrapper function args kwargs).
Proof.
  intros Hf. unfold analyze_wrapper.
  apply keeps_bind; [|intros kw; apply Hf].
  destruct (_ && _); [|apply keeps_ret].
  apply keeps_try; [repeat keeps_step|]. intros e. destruct e; apply keeps_raise.
Qed.

(** [echo_result] looks at the wrapped function only through the
    outcome of this one call. *)
Lemma echo_result_from (function : fn) args kwargs w st o st' :
  function args kwargs w st = (o, st') ->
  quiet E st' ->
  quiet E (snd (echo_result FORMATTERS function args kwargs w st)).
Proof.
  intros H Hq.
  assert (echo_result FORMATTERS function args kwargs w st =
          echo_result FORMATTERS (fun _ _ _ _ => (o, st')) args kwargs w st')
    as -> by (unfold echo_result, bind; now rewrite H).
  apply keeps_echo_result; [|exact Hq]. intros w0 st0 _. exact Hq.
Qed.

Lemma handle_exceptions_from (function : fn) args kwargs w st o st' :
  function args kwargs w st = (o, st') ->
  quiet E st' ->
  quiet E (snd (handle_exceptions function args kwargs w st)).
Proof.
  intros H Hq.
  assert (handle_exceptions function args kwargs w st =
          handle_exceptions (fun _ _ _ _ => (o, st')) args kwargs w st')
    as -> by (unfold handle_exceptions, try; now rewrite H).
  apply keeps_handle_exceptions; [|exact Hq]. intros w0 st0 _. exact Hq.
Qed.

(** What [main] adds to the trace of the command comes last. *)
Lemma main_events (command : fn) (w : world) (options : gmap string param) :
  E (trace (snd (command [] options w {| params := options; trace := [] |}))) ->
  E (events (main command w options)).
Proof.
  unfold main.
  destruct (command [] options w _) as [[a|e] st]; simpl; [auto|].
  intros H. destruct e; simpl; auto.
Qed.

(** Whatever a command built from such parts does, [main] reports only
    rendering calls with [verbose=False], and [E] holds of its events. *)
Lemma main_quiet (command : fn) (w : world) (options : gmap string param) :
  options !! "verbose" = None ->
  E [] ->
  keeps E (command [] options) ->
  Forall verbose_off (events (main command w options))
  /\ E (events (main command w options)).
Proof.
  intros Hv HE Hk. unfold main.
  specialize (Hk w {| params := options; trace := [] |}).
  destruct (command [] options w _) as [[a|e] st]; simpl in Hk.
  - apply Hk. split; [exact Hv | split; [constructor | exact HE]].
  - assert (Forall verbose_off (trace st) /\ E (trace st)) as [Ht HEt]
      by (apply Hk; split; [exact Hv | split; [constructor | exact HE]]).
    destruct e; simpl; try (split; [exact Ht | exact HEt]);
      (split; [apply Forall_app; split; [exact Ht | repeat constructor]
              | now apply E_app]).
Qed.

End Invariant.

Lemma starts_with_app (l t : list event) (e : event) :
  starts_with l t -> starts_with l (t ++ [e]).
Proof. intros [rest ->]. exists (rest ++ [e]). now rewrite app_assoc. Qed.

(** A run of the decorator stack for which a key is resolved starts by
    building the client with that key. *)
Lemma stack_client (FORMATTERS : gmap string formatter_entry) (wrapper : fn)
    (w : world) (options : gmap string param) (k : param) :
  options !! "verbose" = None ->
  resolved_key options (config_api_key w) = Some k ->
  (forall args kwargs, keeps (starts_with [NewClient k]) (wrapper args kwargs)) ->
  starts_with [NewClient k]
    (events
       (main (pass_api_client
                (Click.pass_context
                   (echo_result FORMATTERS (handle_exceptions wrapper))))
          w options)).
Proof.
  intros Hv Hkey Hw.
  pose proof (starts_with_app [NewClient k]) as E_app.
  apply (main_events _ E_app). rewrite pass_api_client_run. cbn [params].
  rewrite Hkey. unfold Click.pass_context.
  apply (keeps_echo_result FORMATTERS _ E_app).
  - apply (keeps_handle_exceptions _ E_app), Hw.
  - split; [exact Hv|]. split; [repeat constructor | now exists []].
Qed.

(** ** Representations and sizes *)

Section ReprFacts.
Import PyStr.

Lemma plain_no_apostrophe (s : string) : plain s = true -> mem apostrophe s = false.
Proof.
  induction s as [|c r IH]; [reflexivity|].
  change (plain (String c r)) with (plain_char c && plain r).
  change (mem apostrophe (String c r))
    with (Ascii.eqb apostrophe c || mem apostrophe r).
  unfold plain_char. intros H. apply andb_prop in H as [Hc Hr].
  apply andb_prop in Hc as [Hc _]. apply andb_prop in Hc as [Hc _].
  rewrite Ascii.eqb_sym. apply negb_true_iff in Hc. rewrite Hc. now apply IH.
Qed.

Lemma repr_char_plain (c : ascii) :
  plain_char c = true -> repr_char apostrophe c = String c EmptyString.
Proof.
  unfold plain_char, repr_char. intros H.
  apply andb_prop in H as [H Hu]. apply andb_prop in H as [Hq Hb].
  apply negb_true_iff in Hq, Hb, Hu. rewrite Hq, Hb, Hu. cbn [orb].
  unfold unprintable in Hu.
  apply orb_false_iff in Hu as [Hu _]. apply orb_false_iff in Hu as [Hu _].
  apply N.ltb_ge in Hu.
  destruct (N.eqb_spec (N_of_ascii c) 9); [lia|].
  destruct (N.eqb_spec (N_of_ascii c) 10); [lia|].
  destruct (N.eqb_spec (N_of_ascii c) 13); [lia|]. reflexivity.
Qed.

Lemma repr_body_plain (s : string) :
  plain s = true -> repr_body apostrophe s = s.
Proof.
  induction s as [|c r IH]; [reflexivity|].
  change (plain (String c r)) with (plain_char c && plain r).
  change (repr_body apostrophe (String c r))
    with (repr_char apostrophe c +:+ repr_body apostrophe r).
  intros H. apply andb_prop in H as [Hc Hr].
  now rewrite repr_char_plain, IH by assumption.
Qed.

(** A text without apostrophe, backslash or unprintable character is
    shown between apostrophes as it is. *)
Lemma repr_plain (s : string) :
  plain s = true -> repr s = "'" +:+ s +:+ "'".
Proof.
  intros H. unfold repr. rewrite plain_no_apostrophe by assumption.
  cbn [andb]. now rewrite repr_body_plain.
Qed.

Lemma assoc_size (key : string) (d : list (string * value)) (x : value) :
  PyVal.assoc key d = Some x -> (PyVal.size x < PyVal.size (VDict d))%nat.
Proof.
  induction d as [|[k y] r IH]; [discriminate|]. simpl.
  destruct (String.eqb k key).
  - intros [= ->]. lia.
  - intros H. specialize (IH H). simpl in IH. lia.
Qed.

(** A field of a dictionary is not the dictionary. *)
Lemma assoc_neq (key : string) (d : list (string * value)) (x : value) :
  PyVal.assoc key d = Some x -> x <> VDict d.
Proof.
  intros H ->. apply assoc_size in H. lia.
Qed.

End ReprFacts.

(** ** Placeholder commands *)

Section NotImplementedFacts.
Import PyStr.

Variable rate_limit_is_request_failure : bool.
Variable not_implemented : param -> string -> outcome value.

Lemma not_implemented_translated w options k name e :
  resolved_key options (config_api_key w) = Some k ->
  not_implemented k name = Raise e ->
  is_request_failure rate_limit_is_request_failure e = true ->
  main (not_implemented_command rate_limit_is_request_failure not_implemented name)
    w options =
  {| exit_code := 1;
     events :=
       [NewClient k; Probe k name;
        Echo Stderr ("Error: " +:+ (PyStr.repr name
                                   +:+ " subcommand is not implemented yet.")
                     +:+ NL)] |}.
Proof.
  intros Hkey Hp He. unfold main, not_implemented_command.
  rewrite pass_api_client_run. cbn [params]. rewrite Hkey.
  unfold try, bind, emit, lift, ret, raise. rewrite Hp, He. reflexivity.
Qed.

Lemma not_implemented_propagated w options k name e :
  resolved_key options (config_api_key w) = Some k ->
  not_implemented k name = Raise e ->
  is_request_failure rate_limit_is_request_failure e = false ->
  not_implemented_command rate_limit_is_request_failure not_implemented name
    [] options w {| params := options; trace := [] |} =
  (Raise e, {| params := options; trace := [NewClient k; Probe k name] |}).
Proof.
  intros Hkey Hp He. unfold not_implemented_command.
  rewrite pass_api_client_run. cbn [params]. rewrite Hkey.
  unfold try, bind, emit, lift, ret, raise. rewrite Hp, He. reflexivity.
Qed.

Lemma not_implemented_returned w options k name v :
  resolved_key options (config_api_key w) = Some k ->
  not_implemented k name = Return v ->
  main (not_implemented_command rate_limit_is_request_failure not_implemented name)
    w options =
  {| exit_code := 0; events := [NewClient k; Probe k name] |}.
Proof.
  intros Hkey Hp. unfold main, not_implemented_command.
  rewrite pass_api_client_run. cbn [params]. rewrite Hkey.
  unfold try, bind, emit, lift, ret, raise. rewrite Hp. reflexivity.
Qed.

End NotImplementedFacts.

(** * The claims *)

(** C1, as stated, fails: the source picked is not always the
    highest-precedence non-empty one.  An empty [-k] value is not [None],
    so it is the key of the client although a non-empty key is
    persisted. *)
Lemma empty_flag_shadows_persisted_key :
  let w := Sample.world_of "enrich" (Some "persisted") false in
  let options := enrich_options (Some EmptyString) (Path "report.eml") None json in
  let run :=
    main (enrich_command Sample.formatters
            (subcommand (Sample.returns (VDict Sample.enriched)))) w options in
  highest_non_empty (Some EmptyString) (config_api_key w) = Some "persisted"
  /\ resolved_key options (config_api_key w) = Some (PStr EmptyString)
  /\ client_keys (events run) = [PStr EmptyString]
  /\ client_keys (events run) <> [PStr "persisted"].
Proof.
  cbv zeta. split; [reflexivity|]. split; [reflexivity|]. split; [reflexivity|].
  intros H. vm_compute in H. discriminate H.
Qed.

(** C1, amended.  API key resolution: a supplied [-k] value is used as
    the key of the client, even when it is the empty string; without one,
    a non-empty persisted key is used.  Whenever the flag is absent or
    not empty, this is the highest-precedence non-empty source.  First
    for [pass_api_client] around any function, in any state: the client
    is built with that key and the function is called with it.  Then for
    whole [enrich], [analyze] and [query] invocations, with the key
    [resolved_key] names: the run starts by building the client with
    it. *)
Theorem api_key_precedence (function : fn) (args : list posarg)
    (kwargs : gmap string param) (w : world) (st : state) :
  (forall flag : string,
      params st !! "api_key" = Some (PStr flag) ->
      pass_api_client function args kwargs w st =
      function (Client (PStr flag) :: args) kwargs w
        (record st [NewClient (PStr flag)]))
  /\ (forall key : string,
         get (params st) "api_key" = PNone ->
         config_api_key w = Some key ->
         key <> EmptyString ->
         pass_api_client function args kwargs w st =
         function (Client (PStr key) :: args) kwargs w
           (record st [NewClient (PStr key)]))
  /\ (forall (flag : string) (config : option string) (options : gmap string param),
         options !! "api_key" = Some (PStr flag) ->
         resolved_key options config = Some (PStr flag))
  /\ (forall (key : string) (options : gmap string param),
         get options "api_key" = PNone ->
         key <> EmptyString ->
         resolved_key options (Some key) = Some (PStr key))
  /\ (forall (flag config : option string) (options : gmap string param),
         get options "api_key" = of_str flag ->
         flag <> Some EmptyString ->
         resolved_key options config = PStr <$> highest_non_empty flag config)
  /\ forall (FORMATTERS : gmap string formatter_entry)
            (body : list posarg -> gmap string param -> outcome value)
            (api_key : option string) (input_file : file)
            (detections_file : option file) (detection_str : option string)
            (query : string) (output_file : option file) (fmt : output_format)
            (k : param),
      let enrich := enrich_options api_key input_file output_file fmt in
      let analyze :=
        analyze_options api_key input_file detections_file detection_str
          output_file fmt in
      let query := query_options api_key input_file query output_file fmt in
      resolved_key enrich (config_api_key w) = Some k ->
      starts_with [NewClient k]
        (events (main (enrich_command FORMATTERS (subcommand body)) w enrich))
      /\ starts_with [NewClient k]
           (events (main (analyze_command FORMATTERS (subcommand body)) w analyze))
      /\ starts_with [NewClient k]
           (events (main (query_command FORMATTERS (subcommand body)) w query)).
Proof.
  split; [|split; [|split; [|split; [|split]]]].
  - intros flag Hflag. rewrite pass_api_client_run.
    unfold resolved_key. now rewrite (get_lookup _ _ _ Hflag).
  - intros key Hflag Hcfg Hne. rewrite pass_api_client_run.
    unfold resolved_key. rewrite Hflag, Hcfg. simpl.
    destruct key; [contradiction | reflexivity].
  - intros flag config options Hflag. unfold resolved_key.
    now rewrite (get_lookup _ _ _ Hflag).
  - intros key options Hflag Hne. unfold resolved_key. rewrite Hflag. simpl.
    destruct key; [contradiction | reflexivity].
  - intros flag config options Hflag Hne. unfold resolved_key. rewrite Hflag.
    destruct flag as [[|c s]|]; [contradiction | reflexivity |].
    destruct config as [[|c s]|]; reflexivity.
  - intros FORMATTERS body api_key input_file detections_file detection_str query
      output_file fmt k enrich analyze query' Hkey.
    pose proof (starts_with_app [NewClient k]) as E_app.
    repeat split; apply stack_client; try reflexivity; try exact Hkey;
      intros a kw.
    + apply (keeps_subcommand _ E_app).
    + apply (keeps_analyze_wrapper _ E_app). intros kw'.
      apply (keeps_subcommand _ E_app).
    + apply (keeps_subcommand _ E_app).
Qed.

Lemma api_key_precedence_witness :
  let function := subcommand (Sample.returns VNone) in
  let w := Sample.world_of "query" (Some "persisted") false in
  let with_flag :=
    {| params := query_options (Some "flag") (Path "mail.mdm") "q" None txt;
       trace := [] |} in
  let without_flag :=
    {| params := query_options None (Path "mail.mdm") "q" None txt;
       trace := [] |} in
  pass_api_client function [] ∅ w with_flag =
  function [Client (PStr "flag")] ∅ w (record with_flag [NewClient (PStr "flag")])
  /\ pass_api_client function [] ∅ w without_flag =
     function [Client (PStr "persisted")] ∅ w
       (record without_flag [NewClient (PStr "persisted")]).
Proof.
  intros function w with_flag without_flag. split.
  - apply (proj1 (api_key_precedence function [] ∅ w with_flag) "flag").
    reflexivity.
  - apply (proj1 (proj2 (api_key_precedence function [] ∅ w without_flag))
             "persisted").
    + reflexivity.
    + reflexivity.
    + discriminate.
Defined.

(** C2, as stated, fails: an empty [-k] value is not [None], so the
    client is built with the empty key and no help text is shown, even
    though a key is configured. *)
Lemma empty_flag_builds_client :
  let run :=
    main (query_command Sample.formatters (subcommand (Sample.returns (VStr "2"))))
      (Sample.world_of "query" (Some "persisted") false)
      (query_options (Some EmptyString) (Path "mail.mdm") "q" None txt) in
  client_keys (events run) = [PStr EmptyString]
  /\ exit_code run = 0
  /\ ~ facade_key_nonempty run.
Proof.
  cbv zeta. split; [reflexivity|]. split; [reflexivity|].
  unfold facade_key_nonempty. intros H.
  assert (client_keys
            (events
               (main (query_command Sample.formatters
                        (subcommand (Sample.returns (VStr "2"))))
                  (Sample.world_of "query" (Some "persisted") false)
                  (query_options (Some EmptyString) (Path "mail.mdm") "q" None txt)))
          = [PStr EmptyString]) as E by reflexivity.
  rewrite E in H. inversion H as [|k l Hk Hl]. discriminate Hk.
Qed.

(** C2, amended.  When no [-k] value is supplied: either the persisted
    key is non-empty, and the client is built with it; or it is absent or
    empty, and the run consists of the help text, which names the flag,
    the environment variable and the setup command in this order, and of
    the exit with status -1, no client being built. *)
Theorem facade_key_without_flag (function : fn) (w : world)
    (options : gmap string param) :
  get options "api_key" = PNone ->
  (exists key : string,
      config_api_key w = Some key /\ key <> EmptyString
      /\ forall args kwargs st,
          params st = options ->
          pass_api_client function args kwargs w st =
          function (Client (PStr key) :: args) kwargs w
            (record st [NewClient (PStr key)]))
  \/ ((config_api_key w = None \/ config_api_key w = Some EmptyString)
      /\ main (pass_api_client function) w options =
         {| exit_code := -1;
            events := [Echo Stdout (api_key_help (info_name w) +:+ PyStr.NL)] |}
      /\ client_keys (events (main (pass_api_client function) w options)) = []
      /\ exists a b c d : string,
          api_key_help (info_name w) =
          a +:+ "-k/--api-key" +:+ b +:+ "SUBLIME_API_KEY" +:+ c
            +:+ PyStr.repr (info_name w +:+ " setup") +:+ d).
Proof.
  intros Hflag.
  assert (forall prog, exists a b c d : string,
             api_key_help prog =
             a +:+ "-k/--api-key" +:+ b +:+ "SUBLIME_API_KEY" +:+ c
               +:+ PyStr.repr (prog +:+ " setup") +:+ d) as Hhelp.
  { intros prog. unfold api_key_help.
    exists (PyStr.NL +:+ "Error: API key not found." +:+ PyStr.NL +:+ PyStr.NL
            +:+ "To fix this problem, please use any of the following methods "
            +:+ "(in order of precedence):" +:+ PyStr.NL
            +:+ "- Pass it using the "),
      (" option." +:+ PyStr.NL +:+ "- Set it in the "),
      (" environment variable." +:+ PyStr.NL +:+ "- Run "),
      (" to save it to the configuration file." +:+ PyStr.NL).
    rewrite !append_assoc. reflexivity. }
  destruct (config_api_key w) as [[|c key]|] eqn:Hcfg.
  - right. split; [now right|].
    assert (resolved_key options (Some EmptyString) = None) as Hkey
      by (unfold resolved_key; now rewrite Hflag).
    rewrite (key_missing function w options) by now rewrite Hcfg.
    split; [reflexivity|]. split; [reflexivity | apply Hhelp].
  - left. exists (String c key). split; [reflexivity|]. split; [discriminate|].
    intros args kwargs st Hst. rewrite pass_api_client_run.
    unfold resolved_key. now rewrite Hst, Hflag, Hcfg.
  - right. split; [now left|].
    assert (resolved_key options None = None) as Hkey
      by (unfold resolved_key; now rewrite Hflag).
    rewrite (key_missing function w options) by now rewrite Hcfg.
    split; [reflexivity|]. split; [reflexivity | apply Hhelp].
Qed.

Lemma facade_key_without_flag_witness :
  let function := subcommand (Sample.returns VNone) in
  let w := Sample.world_of "enrich" None false in
  let options := enrich_options None (Path "report.eml") None json in
  (exists key : string,
      config_api_key w = Some key /\ key <> EmptyString
      /\ forall args kwargs st,
          params st = options ->
          pass_api_client function args kwargs w st =
          function (Client (PStr key) :: args) kwargs w
            (record st [NewClient (PStr key)]))
  \/ ((config_api_key w = None \/ config_api_key w = Some EmptyString)
      /\ main (pass_api_client function) w options =
         {| exit_code := -1;
            events := [Echo Stdout (api_key_help (info_name w) +:+ PyStr.NL)] |}
      /\ client_keys (events (main (pass_api_client function) w options)) = []
      /\ exists a b c d : string,
          api_key_help (info_name w) =
          a +:+ "-k/--api-key" +:+ b +:+ "SUBLIME_API_KEY" +:+ c
            +:+ PyStr.repr (info_name w +:+ " setup") +:+ d).
Proof.
  intros function w options.
  apply (facade_key_without_flag function w options). reflexivity.
Defined.

(** C3. A classified API failure raised by the wrapped call of [enrich],
    [analyze] or [query] (rate limit or request failure whose payload
    carries the detail, or any other request error) adds exactly one log
    line ["API error: <detail>"] to what the call itself did, the process
    exits with the non-zero status -1, and no rendering, file or echo
    event occurs. *)
Theorem classified_failure_reported (FORMATTERS : gmap string formatter_entry)
    (body : list posarg -> gmap string param -> outcome value)
    (w : world) (options : gmap string param) (k : param) (e : exn)
    (detail : string) :
  resolved_key options (config_api_key w) = Some k ->
  detail_of e = Some detail ->
  let failed :=
    {| exit_code := -1;
       events := [NewClient k; Invoke [Ctx; Client k] options;
                  LogError ("API error: " +:+ detail)] |} in
  (body [Ctx; Client k] options = Raise e ->
   main (enrich_command FORMATTERS (subcommand body)) w options = failed
   /\ main (query_command FORMATTERS (subcommand body)) w options = failed
   /\ (detections_given options = true ->
       main (analyze_command FORMATTERS (subcommand body)) w options = failed))
  /\ exit_code failed <> 0
  /\ (forall f : file, echoed f (events failed) = [])
  /\ renders (events failed) = []
  /\ forall (wrapper : fn) (st' : state),
      wrapper [Ctx; Client k] options w
        (record {| params := options; trace := [] |} [NewClient k])
      = (Raise e, st') ->
      main (pass_api_client
              (Click.pass_context
                 (echo_result FORMATTERS (handle_exceptions wrapper)))) w options
      = {| exit_code := -1;
           events := trace st' ++ [LogError ("API error: " +:+ detail)] |}.
Proof.
  intros Hkey Hd failed. split; [|split; [|split; [|split]]].
  - intros Hbody.
    assert (forall kwargs st,
               kwargs = options ->
               subcommand body [Ctx; Client k] kwargs w st =
               (Raise e, record st [Invoke [Ctx; Client k] options])) as Hrun.
    { intros kwargs st ->. rewrite subcommand_run. now rewrite Hbody. }
    split; [|split].
    + unfold enrich_command.
      erewrite stack_failure;
        [| eassumption | unfold enrich_wrapper; now apply Hrun | eassumption].
      reflexivity.
    + unfold query_command.
      erewrite stack_failure;
        [| eassumption | unfold query_wrapper; now apply Hrun | eassumption].
      reflexivity.
    + intros Hgiven. unfold analyze_command.
      erewrite stack_failure;
        [| eassumption
         | rewrite analyze_wrapper_given by assumption; now apply Hrun
         | eassumption].
      reflexivity.
  - discriminate.
  - intros f. now destruct f.
  - reflexivity.
  - intros wrapper st' Hrun. eapply stack_failure; eauto.
Qed.

Lemma classified_failure_reported_witness :
  let body :=
    Sample.fails (RequestFailure [VInt 400; VDict [("detail", VStr "invalid message")]]) in
  let w := Sample.world_of "enrich" (Some "persisted") false in
  let options := enrich_options None (Path "report.eml") None json in
  main (enrich_command Sample.formatters (subcommand body)) w options =
  {| exit_code := -1;
     events := [NewClient (PStr "persisted");
                Invoke [Ctx; Client (PStr "persisted")] options;
                LogError "API error: invalid message"] |}.
Proof.
  intros body w options.
  apply (proj1 (classified_failure_reported Sample.formatters body w options
                  (PStr "persisted")
                  (RequestFailure [VInt 400; VDict [("detail", VStr "invalid message")]])
                  "invalid message" eq_refl eq_refl)).
  reflexivity.
Defined.

(** C4. An [enrich] invocation with no output file creates, and writes
    the rendering to, the file named after the base name of the input
    without its extension, followed by [.mdm] for json and [.txt] for
    txt. *)
Theorem enrich_output_file_name (FORMATTERS : gmap string formatter_entry)
    (body : list posarg -> gmap string param -> outcome value) (w : world)
    (key : option string) (i : file) (fmt : output_format) (k : param)
    (rk : formatter_key) (f df : renderer) (d : list (string * value))
    (mdm : value) :
  let options := enrich_options key i None fmt in
  let name :=
    fst (PosixPath.splitext (PosixPath.basename (file_name i))) +:+ extension fmt in
  command_name w = "enrich" ->
  resolved_key options (config_api_key w) = Some k ->
  body [Ctx; Client k] options = Return (VDict d) ->
  resolve FORMATTERS (format_name fmt) "enrich" = Some (rk, f) ->
  details FORMATTERS = Some df ->
  PyVal.assoc "message_data_model" d = Some mdm ->
  events (main (enrich_command FORMATTERS (subcommand body)) w options) =
  [NewClient k; Invoke [Ctx; Client k] options;
   OpenFile name "w";
   Render (ByCommand "txt" "enrich_details") (VDict d) (PBool false);
   Echo Stdout (PyStr.strip PyStr.NL (df (VDict d) (PBool false)) +:+ PyStr.NL);
   Render rk mdm (PBool false);
   Echo (Path name) (PyStr.strip PyStr.NL (f mdm (PBool false)) +:+ PyStr.NL);
   Echo Stdout ("Output saved to " +:+ name +:+ PyStr.NL)].
Proof.
  intros options name Hcmd Hkey Hbody Hres Hdet Hmdm.
  unfold options.
  rewrite (enrich_success FORMATTERS body w key i None fmt k rk f df d mdm)
    by assumption.
  cbn [events default file_name app].
  rewrite output_file_name_eq, basename_splitext. reflexivity.
Qed.

Lemma enrich_output_file_name_witness :
  let body := Sample.returns (VDict Sample.enriched) in
  let w := Sample.world_of "enrich" (Some "persisted") false in
  let options := enrich_options None (Path "mail/report.eml") None json in
  events (main (enrich_command Sample.formatters (subcommand body)) w options) =
  [NewClient (PStr "persisted"); Invoke [Ctx; Client (PStr "persisted")] options;
   OpenFile "report.mdm" "w";
   Render (ByCommand "txt" "enrich_details") (VDict Sample.enriched) (PBool false);
   Echo Stdout
     (PyStr.strip PyStr.NL (Sample.details_renderer (VDict Sample.enriched) (PBool false))
      +:+ PyStr.NL);
   Render (ByFormat "json") Sample.mdm (PBool false);
   Echo (Path "report.mdm")
     (PyStr.strip PyStr.NL (Sample.json_renderer Sample.mdm (PBool false)) +:+ PyStr.NL);
   Echo Stdout ("Output saved to " +:+ "report.mdm" +:+ PyStr.NL)].
Proof.
  intros body w options.
  apply (enrich_output_file_name Sample.formatters body w None
           (Path "mail/report.eml") json (PStr "persisted") (ByFormat "json")
           Sample.json_renderer Sample.details_renderer Sample.enriched Sample.mdm);
    reflexivity.
Defined.

(** C5. A successful [enrich] invocation renders the detail view with
    the txt formatter registered for ["enrich_details"] and echoes it to
    standard output, whether or not an output file was supplied; when one
    was, the same run also echoes the rendering of the message data model
    to that file. *)
Theorem enrich_details_on_console (FORMATTERS : gmap string formatter_entry)
    (body : list posarg -> gmap string param -> outcome value) (w : world)
    (key : option string) (i : file) (o : option file) (fmt : output_format)
    (k : param) (rk : formatter_key) (f df : renderer)
    (d : list (string * value)) (mdm : value) :
  let options := enrich_options key i o fmt in
  let run := main (enrich_command FORMATTERS (subcommand body)) w options in
  command_name w = "enrich" ->
  resolved_key options (config_api_key w) = Some k ->
  body [Ctx; Client k] options = Return (VDict d) ->
  resolve FORMATTERS (format_name fmt) "enrich" = Some (rk, f) ->
  details FORMATTERS = Some df ->
  PyVal.assoc "message_data_model" d = Some mdm ->
  exit_code run = 0
  /\ In (Render (ByCommand "txt" "enrich_details") (VDict d) (PBool false))
       (events run)
  /\ In (Echo Stdout (PyStr.strip PyStr.NL (df (VDict d) (PBool false)) +:+ PyStr.NL))
       (events run)
  /\ forall file : file,
      o = Some file ->
      In (Echo file (PyStr.strip PyStr.NL (f mdm (PBool false)) +:+ PyStr.NL))
        (events run).
Proof.
  intros options run Hcmd Hkey Hbody Hres Hdet Hmdm.
  unfold run, options.
  rewrite (enrich_success FORMATTERS body w key i o fmt k rk f df d mdm)
    by assumption.
  cbn [exit_code events]. split; [reflexivity|].
  split; [|split].
  - destruct o; simpl; auto 10.
  - destruct o; simpl; auto 10.
  - intros file ->. simpl. auto 10.
Qed.

Lemma enrich_details_on_console_witness :
  let body := Sample.returns (VDict Sample.enriched) in
  let w := Sample.world_of "enrich" (Some "persisted") false in
  let options := enrich_options None (Path "report.eml") (Some (Path "out.txt")) txt in
  let run := main (enrich_command Sample.formatters (subcommand body)) w options in
  exit_code run = 0
  /\ In (Render (ByCommand "txt" "enrich_details") (VDict Sample.enriched) (PBool false))
       (events run)
  /\ In (Echo Stdout
           (PyStr.strip PyStr.NL
              (Sample.details_renderer (VDict Sample.enriched) (PBool false))
            +:+ PyStr.NL))
       (events run)
  /\ forall file : file,
      Some (Path "out.txt") = Some file ->
      In (Echo file
            (PyStr.strip PyStr.NL (Sample.enrich_renderer Sample.mdm (PBool false))
             +:+ PyStr.NL))
        (events run).
Proof.
  intros body w options run.
  apply (enrich_details_on_console Sample.formatters body w None
           (Path "report.eml") (Some (Path "out.txt")) txt (PStr "persisted")
           (ByCommand "txt" "enrich") Sample.enrich_renderer
           Sample.details_renderer Sample.enriched Sample.mdm);
    reflexivity.
Defined.

(** C6. In a successful [enrich] invocation the rendering functions are
    called exactly twice: first the detail formatter on the full result,
    whose text is echoed to standard output, and only then the formatter
    of the requested format, on the nested [message_data_model] field,
    which is not the full result. *)
Theorem enrich_narrows_after_details (FORMATTERS : gmap string formatter_entry)
    (body : list posarg -> gmap string param -> outcome value) (w : world)
    (key : option string) (i : file) (o : option file) (fmt : output_format)
    (k : param) (rk : formatter_key) (f df : renderer)
    (d : list (string * value)) (mdm : value) :
  let options := enrich_options key i o fmt in
  let run := main (enrich_command FORMATTERS (subcommand body)) w options in
  let detail_key := ByCommand "txt" "enrich_details" in
  command_name w = "enrich" ->
  resolved_key options (config_api_key w) = Some k ->
  body [Ctx; Client k] options = Return (VDict d) ->
  resolve FORMATTERS (format_name fmt) "enrich" = Some (rk, f) ->
  details FORMATTERS = Some df ->
  PyVal.assoc "message_data_model" d = Some mdm ->
  renders (events run) =
  [(detail_key, VDict d, PBool false); (rk, mdm, PBool false)]
  /\ mdm <> VDict d
  /\ rk <> detail_key
  /\ exists before after : list event,
      events run =
      before
      ++ Echo Stdout (PyStr.strip PyStr.NL (df (VDict d) (PBool false)) +:+ PyStr.NL)
         :: after
      /\ renders before = [(detail_key, VDict d, PBool false)]
      /\ renders after = [(rk, mdm, PBool false)].
Proof.
  intros options run detail_key Hcmd Hkey Hbody Hres Hdet Hmdm.
  unfold run, options.
  rewrite (enrich_success FORMATTERS body w key i o fmt k rk f df d mdm)
    by assumption.
  cbn [events]. split; [now destruct o|].
  split; [now apply assoc_neq with (key := "message_data_model")|].
  split.
  - unfold resolve in Hres.
    destruct (FORMATTERS !! format_name fmt) as [[g|dd]|]; try discriminate Hres.
    + injection Hres as <- _. discriminate.
    + destruct (dd !! "enrich"); [|discriminate Hres].
      injection Hres as <- _. discriminate.
  - eexists ([NewClient k; Invoke [Ctx; Client k] (enrich_options key i o fmt)]
             ++ match o with
                | Some _ => []
                | None => [OpenFile _ "w"]
                end
             ++ [Render detail_key (VDict d) (PBool false)]), _.
    split; [|split].
    + now destruct o.
    + now destruct o.
    + reflexivity.
Qed.

Lemma enrich_narrows_after_details_witness :
  let body := Sample.returns (VDict Sample.enriched) in
  let w := Sample.world_of "enrich" (Some "persisted") false in
  let options := enrich_options None (Path "report.eml") None json in
  let run := main (enrich_command Sample.formatters (subcommand body)) w options in
  renders (events run) =
  [(ByCommand "txt" "enrich_details", VDict Sample.enriched, PBool false);
   (ByFormat "json", Sample.mdm, PBool false)].
Proof.
  intros body w options run.
  apply (enrich_narrows_after_details Sample.formatters body w None
           (Path "report.eml") None json (PStr "persisted") (ByFormat "json")
           Sample.json_renderer Sample.details_renderer Sample.enriched
           Sample.mdm);
    reflexivity.
Defined.

(** C7, as stated, fails: [.strip("\n")] also removes leading newlines.
    The text the sample query renderer returns starts with two newlines;
    what reaches standard output starts with [rows]. *)
Lemma leading_newlines_are_stripped :
  let rendered := Sample.query_renderer (VStr "2") (PBool false) in
  let run :=
    main (query_command Sample.formatters (subcommand (Sample.returns (VStr "2"))))
      (Sample.world_of "query" (Some "persisted") false)
      (query_options None (Path "mail.mdm") "q" None txt) in
  rendered = PyStr.NL +:+ PyStr.NL +:+ "rows 2" +:+ PyStr.NL
  /\ echoed Stdout (events run) = ["rows 2" +:+ PyStr.NL]
  /\ echoed Stdout (events run) <> [PyStr.rstrip PyStr.NL rendered +:+ PyStr.NL].
Proof.
  cbv zeta. split; [reflexivity|]. split; [reflexivity|].
  intros H. vm_compute in H. discriminate H.
Qed.

(** C7, amended.  For every command, the text echoed to the output
    destination is the rendered text with the newlines at both of its
    ends removed, followed by one newline; only newlines are removed; and
    when the rendered text does not start with a newline this is the text
    with its trailing newlines removed.  For [enrich] the rendered value
    is the nested [message_data_model]. *)
Theorem emitted_text_is_stripped (FORMATTERS : gmap string formatter_entry)
    (function : fn) (args : list posarg) (kwargs : gmap string param)
    (w : world) (st st' : state) (result : value) (fmt : output_format)
    (rk : formatter_key) (f : renderer) (o : option file) :
  function args kwargs w st = (Return result, st') ->
  params st' !! "output_format" = Some (PStr (format_name fmt)) ->
  params st' !! "output_file" = Some (of_file o) ->
  resolve FORMATTERS (format_name fmt) (command_name w) = Some (rk, f) ->
  let verbose := get_default (params st') "verbose" (PBool false) in
  let emitted (text : string) := PyStr.strip PyStr.NL text +:+ PyStr.NL in
  (String.eqb (command_name w) "enrich" = false ->
   echo_result FORMATTERS function args kwargs w st =
   (Return VNone,
    record st'
      ([Render rk result verbose;
        Echo (default Stdout o) (emitted (f result verbose))]
       ++ saved o)))
  /\ (command_name w = "enrich" ->
      forall (d : list (string * value)) (mdm : value) (i : file) (df : renderer),
        result = VDict d ->
        PyVal.assoc "message_data_model" d = Some mdm ->
        params st' !! "input_file" = Some (PFile i) ->
        details FORMATTERS = Some df ->
        let name := output_file_name (file_name i) (PStr (format_name fmt)) in
        let target := default (Path name) o in
        echo_result FORMATTERS function args kwargs w st =
        (Return VNone,
         {| params := match o with
                      | Some _ => params st'
                      | None => <["output_file" := PFile (Path name)]> (params st')
                      end;
            trace := trace st'
                     ++ match o with Some _ => [] | None => [OpenFile name "w"] end
                     ++ [Render (ByCommand "txt" "enrich_details") result verbose;
                         Echo Stdout (emitted (df result verbose));
                         Render rk mdm verbose;
                         Echo target (emitted (f mdm verbose));
                         Echo Stdout ("Output saved to " +:+ file_name target
                                      +:+ PyStr.NL)] |}))
  /\ forall text : string,
      (exists a b : string,
          text = a +:+ PyStr.strip PyStr.NL text +:+ b
          /\ PyStr.all_in PyStr.NL a = true
          /\ PyStr.all_in PyStr.NL b = true
          /\ PyStr.starts_in PyStr.NL (PyStr.strip PyStr.NL text) = false
          /\ PyStr.ends_in PyStr.NL (PyStr.strip PyStr.NL text) = false)
      /\ (PyStr.starts_in PyStr.NL text = false ->
          PyStr.strip PyStr.NL text = PyStr.rstrip PyStr.NL text).
Proof.
  intros Hrun Hfmt Hout Hres verbose emitted. split; [|split].
  - intros Hcmd. now apply echo_result_plain with (fmt := format_name fmt).
  - intros Hcmd d mdm i df -> Hmdm Hin Hdet name target.
    rewrite Hcmd in Hres.
    now apply echo_result_enrich.
  - intros text. split; [apply strip_split | apply strip_rstrip].
Qed.

Lemma emitted_text_is_stripped_witness :
  let function := query_wrapper (subcommand (Sample.returns (VStr "2"))) in
  let w := Sample.world_of "query" (Some "persisted") false in
  let options := query_options None (Path "mail.mdm") "q" None txt in
  let st := {| params := options; trace := [] |} in
  echo_result Sample.formatters function [] options w st =
  (Return VNone,
   {| params := options;
      trace := [Invoke [] options;
                Render (ByCommand "txt" "query") (VStr "2") (PBool false);
                Echo Stdout ("rows 2" +:+ PyStr.NL)] |}).
Proof.
  intros function w options st.
  apply (proj1 (emitted_text_is_stripped Sample.formatters function [] options w
                  st (record st [Invoke [] options]) (VStr "2") txt
                  (ByCommand "txt" "query") Sample.query_renderer None
                  eq_refl eq_refl eq_refl eq_refl)).
  reflexivity.
Defined.

(** C8, as stated, fails twice.  For an invocation without an API key,
    [pass_api_client] being the outermost decorator, the run stops at the
    API key help text with status -1: [detections.pql] is never looked
    for and the text names neither [-D] nor [-d].  And when
    [detections.pql] exists but cannot be opened (here it is a
    directory), it is not used: only [FileNotFoundError] is caught, the
    error of [open] ends the run with a traceback, and the subcommand is
    not called. *)
Lemma analyze_default_not_reached_or_unreadable :
  let options := analyze_options None (Path "mail.eml") None None None txt in
  let command :=
    analyze_command Sample.formatters (subcommand (Sample.returns (VStr "ok"))) in
  let keyless := Sample.world_of "analyze" None false in
  let directory := Sample.world_with_directory "analyze" (Some "persisted") in
  detections_given options = false
  /\ open_read keyless "detections.pql" = Missing
  /\ main command keyless options =
     {| exit_code := -1;
        events := [Echo Stdout (api_key_help "sublime" +:+ PyStr.NL)] |}
  /\ PyStr.contains "-D" (api_key_help "sublime") = false
  /\ PyStr.contains "-d" (api_key_help "sublime") = false
  /\ open_read directory "detections.pql" = Unreadable "IsADirectoryError"
  /\ main command directory options =
     {| exit_code := 1;
        events := [NewClient (PStr "persisted");
                   Traceback (OtherError "IsADirectoryError" "detections.pql")] |}
  /\ api_calls (events (main command directory options)) = 0%nat.
Proof.
  cbv zeta. repeat split; vm_compute; reflexivity.
Qed.

(** C8, amended.  For every [analyze] invocation for which an API key is
    resolved and to which neither a detections file nor a raw detection
    is supplied, [detections.pql] is opened for reading.  When that
    succeeds, the run starts by building the client, opening that file
    and calling the subcommand with it as the detections file.  When
    there is no such file, the run consists of building the client and of
    the usage error, which names [-D] and [-d], the status is 1, and the
    subcommand, hence the API, is never called.  When the file is there
    but cannot be opened, the error of [open] ends the run with status 1,
    and the subcommand is not called either. *)
Theorem analyze_default_detections (FORMATTERS : gmap string formatter_entry)
    (body : list posarg -> gmap string param -> outcome value) (w : world)
    (api_key : option string) (input_file : file)
    (detections_file : option file) (detection_str : option string)
    (output_file : option file) (fmt : output_format) (k : param) :
  let options :=
    analyze_options api_key input_file detections_file detection_str
      output_file fmt in
  resolved_key options (config_api_key w) = Some k ->
  detections_given options = false ->
  let usage :=
    "You must specify either a .pql detections file (-D) or a raw detection (-d)" in
  let kwargs := <["detections_file" := PFile (Path "detections.pql")]> options in
  let run := main (analyze_command FORMATTERS (subcommand body)) w options in
  (open_read w "detections.pql" = Readable ->
   starts_with
     [NewClient k; OpenFile "detections.pql" "r"; Invoke [Ctx; Client k] kwargs]
     (events run))
  /\ (open_read w "detections.pql" = Missing ->
      run = {| exit_code := 1;
               events := [NewClient k;
                          Echo Stderr ("Error: " +:+ usage +:+ PyStr.NL)] |}
      /\ api_calls (events run) = 0%nat)
  /\ (forall class : string,
         open_read w "detections.pql" = Unreadable class ->
         run = {| exit_code := 1;
                  events := [NewClient k;
                             Traceback (OtherError class "detections.pql")] |}
         /\ api_calls (events run) = 0%nat)
  /\ message MissingDetectionInput = Some usage
  /\ PyStr.contains "-D" usage = true
  /\ PyStr.contains "-d" usage = true.
Proof.
  intros options Hkey Hgiven usage kwargs run.
  split; [|split; [|split; [|repeat split]]].
  - intros Hex.
    set (reached := [NewClient k; OpenFile "detections.pql" "r";
                     Invoke [Ctx; Client k] kwargs]).
    pose proof (starts_with_app reached) as E_app.
    apply (main_events (starts_with reached) E_app). unfold analyze_command.
    rewrite pass_api_client_run. cbn [params]. rewrite Hkey.
    unfold Click.pass_context.
    set (st1 := record {| params := options; trace := [] |} [NewClient k]).
    assert (quiet (starts_with reached)
              (record st1 [OpenFile "detections.pql" "r";
                           Invoke [Ctx; Client k] kwargs])) as Hq.
    { split; [reflexivity|]. split; [repeat constructor|]. now exists []. }
    destruct (handle_exceptions (analyze_wrapper (subcommand body))
                [Ctx; Client k] options w st1) as [o st2] eqn:Hh.
    assert (quiet (starts_with reached) st2) as Hq2.
    { replace st2 with
        (snd (handle_exceptions (analyze_wrapper (subcommand body))
                [Ctx; Client k] options w st1)) by now rewrite Hh.
      eapply (handle_exceptions_from (starts_with reached) E_app); [|exact Hq].
      rewrite analyze_wrapper_default by assumption.
      rewrite subcommand_run. unfold record. cbn [params trace].
      rewrite <- app_assoc. reflexivity. }
    apply (echo_result_from FORMATTERS (starts_with reached) E_app _ _ _ w st1 o st2
             Hh Hq2).
  - intros Hex.
    assert (run = {| exit_code := 1;
                     events := [NewClient k;
                                Echo Stderr ("Error: " +:+ usage +:+ PyStr.NL)] |})
      as Hrun.
    { unfold run, main, analyze_command.
      rewrite (stack_other FORMATTERS (analyze_wrapper (subcommand body)) w options
                 k (record {| params := options; trace := [] |} [NewClient k])
                 MissingDetectionInput Hkey);
        [reflexivity | | exact I].
      now apply analyze_wrapper_missing. }
    now rewrite Hrun.
  - intros class Hex.
    assert (run = {| exit_code := 1;
                     events := [NewClient k;
                                Traceback (OtherError class "detections.pql")] |})
      as Hrun.
    { unfold run, main, analyze_command.
      rewrite (stack_other FORMATTERS (analyze_wrapper (subcommand body)) w options
                 k (record {| params := options; trace := [] |} [NewClient k])
                 (OtherError class "detections.pql") Hkey);
        [reflexivity | | exact I].
      now apply analyze_wrapper_unreadable. }
    now rewrite Hrun.
Qed.

Lemma analyze_default_detections_witness :
  let body := Sample.returns (VStr "ok") in
  let options := analyze_options None (Path "mail.eml") None None None txt in
  let kwargs := <["detections_file" := PFile (Path "detections.pql")]> options in
  starts_with
    [NewClient (PStr "persisted"); OpenFile "detections.pql" "r";
     Invoke [Ctx; Client (PStr "persisted")] kwargs]
    (events
       (main (analyze_command Sample.formatters (subcommand body))
          (Sample.world_of "analyze" (Some "persisted") true) options))
  /\ main (analyze_command Sample.formatters (subcommand body))
       (Sample.world_of "analyze" (Some "persisted") false) options =
     {| exit_code := 1;
        events :=
          [NewClient (PStr "persisted");
           Echo Stderr
             ("Error: "
              +:+ "You must specify either a .pql detections file (-D) or a raw detection (-d)"
              +:+ PyStr.NL)] |}
  /\ main (analyze_command Sample.formatters (subcommand body))
       (Sample.world_with_directory "analyze" (Some "persisted")) options =
     {| exit_code := 1;
        events :=
          [NewClient (PStr "persisted");
           Traceback (OtherError "IsADirectoryError" "detections.pql")] |}.
Proof.
  intros body options kwargs. split; [|split].
  - apply (proj1 (analyze_default_detections Sample.formatters body
                    (Sample.world_of "analyze" (Some "persisted") true) None
                    (Path "mail.eml") None None None txt
                    (PStr "persisted") eq_refl eq_refl)).
    reflexivity.
  - apply (proj1 (proj2 (analyze_default_detections Sample.formatters body
                           (Sample.world_of "analyze" (Some "persisted") false)
                           None (Path "mail.eml") None None None txt
                           (PStr "persisted") eq_refl eq_refl))).
    reflexivity.
  - apply (proj1 (proj2 (proj2 (analyze_default_detections Sample.formatters body
                           (Sample.world_with_directory "analyze" (Some "persisted"))
                           None (Path "mail.eml") None None None txt
                           (PStr "persisted") eq_refl eq_refl)))
             "IsADirectoryError").
    reflexivity.
Defined.

(** C9, as stated, fails twice.  Only [RequestFailure] is caught around
    the probe: when the probe fails with another request error, the
    exception leaves the command as it is and the user gets a traceback,
    not the "not implemented" error.  And without an API key the run
    stops at the help text: no client is built and the probe is not
    called. *)
Lemma probe_transport_error_is_not_translated :
  let failing := Sample.probe_fails (RequestException "connection refused") in
  let run :=
    main (not_implemented_command true failing "feed")
      (Sample.world_of "feed" (Some "persisted") false) ∅ in
  let keyless :=
    main (not_implemented_command true failing "feed")
      (Sample.world_of "feed" None false) ∅ in
  run = {| exit_code := 1;
           events := [NewClient (PStr "persisted");
                      Probe (PStr "persisted") "feed";
                      Traceback (RequestException "connection refused")] |}
  /\ echoed Stderr (events run) = []
  /\ keyless = {| exit_code := -1;
                  events := [Echo Stdout (api_key_help "sublime" +:+ PyStr.NL)] |}
  /\ api_calls (events keyless) = 0%nat.
Proof.
  cbv zeta. repeat split; reflexivity.
Qed.

(** C9, amended.  A not-implemented placeholder command has no option of
    its own, so the key is the persisted one; when that key is not empty
    the client is built with it and the probe is called with the name of
    the command.  When the probe fails with a [RequestFailure] the user
    sees the usage-style error ["'<name>' subcommand is not implemented
    yet."] and the status is 1; any failure that is not a
    [RequestFailure] leaves the command unchanged. *)
Theorem not_implemented_probe (rate_limit_is_request_failure : bool)
    (not_implemented : param -> string -> outcome value) (name : string)
    (w : world) (key : string) :
  config_api_key w = Some key ->
  key <> EmptyString ->
  let run :=
    main (not_implemented_command rate_limit_is_request_failure not_implemented name)
      w ∅ in
  let reached := [NewClient (PStr key); Probe (PStr key) name] in
  (exists rest : list event, events run = reached ++ rest)
  /\ (forall e : exn,
         not_implemented (PStr key) name = Raise e ->
         is_request_failure rate_limit_is_request_failure e = true ->
         run = {| exit_code := 1;
                  events :=
                    reached
                    ++ [Echo Stderr
                          ("Error: "
                           +:+ (PyStr.repr name +:+ " subcommand is not implemented yet.")
                           +:+ PyStr.NL)] |})
  /\ (forall args : list value,
         is_request_failure rate_limit_is_request_failure (RequestFailure args) = true)
  /\ (PyStr.plain name = true -> PyStr.repr name = "'" +:+ name +:+ "'")
  /\ (forall e : exn,
         not_implemented (PStr key) name = Raise e ->
         is_request_failure rate_limit_is_request_failure e = false ->
         not_implemented_command rate_limit_is_request_failure not_implemented name
           [] ∅ w {| params := ∅; trace := [] |} =
         (Raise e, {| params := ∅; trace := reached |})).
Proof.
  intros Hcfg Hne run reached.
  assert (resolved_key ∅ (config_api_key w) = Some (PStr key)) as Hkey.
  { rewrite Hcfg. unfold resolved_key. cbn.
    destruct key; [contradiction | reflexivity]. }
  split; [|split; [|split; [|split]]].
  - destruct (not_implemented (PStr key) name) as [v|e] eqn:Hp.
    + exists []. unfold run.
      now rewrite (not_implemented_returned _ _ w ∅ (PStr key) name v).
    + destruct (is_request_failure rate_limit_is_request_failure e) eqn:He.
      * eexists. unfold run.
        now rewrite (not_implemented_translated _ _ w ∅ (PStr key) name e).
      * unfold run, main.
        rewrite (not_implemented_propagated _ _ w ∅ (PStr key) name e)
          by assumption.
        destruct e; try discriminate He; cbn; eexists; reflexivity.
  - intros e Hp He. unfold run.
    now rewrite (not_implemented_translated _ _ w ∅ (PStr key) name e).
  - reflexivity.
  - apply repr_plain.
  - intros e Hp He. now apply not_implemented_propagated.
Qed.

Lemma not_implemented_probe_witness :
  let probe := Sample.probe_fails (RequestFailure [VInt 404; VDict []]) in
  let w := Sample.world_of "feed" (Some "persisted") false in
  main (not_implemented_command false probe "feed") w ∅ =
  {| exit_code := 1;
     events := [NewClient (PStr "persisted"); Probe (PStr "persisted") "feed";
                Echo Stderr ("Error: 'feed' subcommand is not implemented yet."
                             +:+ PyStr.NL)] |}.
Proof.
  intros probe w.
  assert ("persisted" <> EmptyString) as Hne by discriminate.
  apply (proj1 (proj2 (not_implemented_probe false probe "feed" w "persisted"
                         eq_refl Hne))
           (RequestFailure [VInt 404; VDict []])); reflexivity.
Defined.

(** C10. In every [enrich], [analyze] and [query] invocation each call
    of a rendering function, the detail formatter of [enrich] included,
    gets [verbose=False]: the option declarations of the three commands
    put no ["verbose"] entry in [context.params], nothing in the pipeline
    adds one, and [params.get("verbose", False)] falls back to
    [False]. *)
Theorem rendering_is_never_verbose (FORMATTERS : gmap string formatter_entry)
    (body : list posarg -> gmap string param -> outcome value) (w : world)
    (api_key : option string) (input_file : file)
    (detections_file : option file) (detection_str : option string)
    (query : string) (output_file : option file) (fmt : output_format) :
  let enrich := enrich_options api_key input_file output_file fmt in
  let analyze :=
    analyze_options api_key input_file detections_file detection_str
      output_file fmt in
  let query := query_options api_key input_file query output_file fmt in
  (enrich !! "verbose" = None
   /\ Forall verbose_off
        (events (main (enrich_command FORMATTERS (subcommand body)) w enrich)))
  /\ (analyze !! "verbose" = None
      /\ Forall verbose_off
           (events (main (analyze_command FORMATTERS (subcommand body)) w analyze)))
  /\ (query !! "verbose" = None
      /\ Forall verbose_off
           (events (main (query_command FORMATTERS (subcommand body)) w query))).
Proof.
  intros enrich analyze query'.
  set (E := fun _ : list event => True).
  assert (forall t e, E t -> E (t ++ [e])) as E_app by (intros; exact I).
  assert (forall (wrapper : fn) options,
             options !! "verbose" = None ->
             (forall args kwargs, keeps E (wrapper args kwargs)) ->
             Forall verbose_off
               (events
                  (main (pass_api_client
                           (Click.pass_context
                              (echo_result FORMATTERS (handle_exceptions wrapper))))
                     w options))) as Hstack.
  { intros wrapper options Hv Hw.
    apply (main_quiet E E_app); [exact Hv | exact I |].
    apply (keeps_pass_api_client E E_app). intros a. unfold Click.pass_context.
    apply (keeps_echo_result FORMATTERS E E_app).
    apply (keeps_handle_exceptions E E_app), Hw. }
  repeat split; try reflexivity; apply Hstack; try reflexivity; intros args kwargs.
  - apply (keeps_subcommand E E_app).
  - apply (keeps_analyze_wrapper E E_app). intros kw.
    apply (keeps_subcommand E E_app).
  - apply (keeps_subcommand E E_app).
Qed.

(** * Further properties of the pipeline *)

(** ** The name of the synthesized file *)

Section NameFacts.
Import PyStr PosixPath.

Lemma len_app (x y : string) : len (x +:+ y) = len x + len y.
Proof.
induction x as [|a x IH]; [rewrite append_nil; unfold len; simpl; lia|].
rewrite append_cons, !len_cons, IH. lia.
Qed.

Lemma rfind_app_l (c : ascii) (x y : string) :
  rfind c y = -1 -> rfind c (x +:+ y) = rfind c x.
Proof.
intros Hy. induction x as [|a x IH]; [exact Hy|].
rewrite append_cons, !rfind_cons, IH. reflexivity.
Qed.

Lemma rfind_app_last (c : ascii) (x y : string) :
  rfind c y = -1 -> rfind c (x +:+ String c y) = len x.
Proof.
intros Hy. induction x as [|a x IH].
- rewrite append_nil, rfind_cons, Hy, Ascii.eqb_refl. reflexivity.
- rewrite append_cons, rfind_cons, IH, len_cons.
  pose proof (len_nonneg x). destruct (Z.leb_spec 0 (len x)); [reflexivity | lia].
Qed.

Lemma slice_to_app (x y : string) : slice_to (x +:+ y) (len x) = x.
Proof.
induction x as [|a x IH]; [apply slice_to_0|].
rewrite append_cons, len_cons, slice_to_cons by apply len_nonneg.
now rewrite IH.
Qed.

Lemma slice_from_app (x y : string) : slice_from (x +:+ y) (len x) = y.
Proof.
induction x as [|a x IH]; [apply slice_from_0|].
rewrite append_cons, len_cons, slice_from_cons by apply len_nonneg.
exact IH.
Qed.

Lemma slice_head (a : ascii) (r : string) :
  slice (String a r) 0 (0 + 1) = String a EmptyString.
Proof.
unfold slice. rewrite bound_cons by lia. rewrite !bound_0. simpl.
now rewrite substring_none.
Qed.

(** The base name has no separator. *)
Lemma basename_no_sep (p : string) : rfind "/" (basename p) = -1.
Proof.
induction p as [|a r IH]; [reflexivity|].
destruct (Z.leb_spec 0 (rfind "/" r)) as [Hsep|Hsep].
- now rewrite basename_cons_sep.
- assert (rfind "/" r = -1) as Hr by (pose proof (rfind_ge "/" r); lia).
  destruct (Ascii.eqb_spec a "/") as [->|Hne].
  + now rewrite basename_slash.
  + assert (rfind "/" (String a r) = -1) as Hp.
    { rewrite rfind_cons, Hr. simpl. apply Ascii.eqb_neq in Hne. now rewrite Hne. }
    now rewrite basename_nosep.
Qed.

Lemma basename_app (dir rest : string) :
  rfind "/" rest = -1 -> basename (dir +:+ String "/" rest) = rest.
Proof.
intros Hrest. unfold basename. rewrite rfind_app_last by assumption.
replace (dir +:+ String "/" rest) with ((dir +:+ "/") +:+ rest)
  by now rewrite append_assoc.
replace (len dir + 1) with (len (dir +:+ "/")) by (rewrite len_app; reflexivity).
apply slice_from_app.
Qed.

Lemma splitext_dot (r : string) :
  rfind "/" r = -1 -> 0 <= rfind "." r ->
  splitext (String "." r) = (String "." (fst (splitext r)), snd (splitext r)).
Proof.
intros Hsep Hdot.
assert (rfind "/" (String "." r) = -1) as Hs
  by (rewrite rfind_cons, Hsep; reflexivity).
assert (rfind "." (String "." r) = rfind "." r + 1) as Hd.
{ rewrite rfind_cons. destruct (Z.leb_spec 0 (rfind "." r)); [reflexivity | lia]. }
unfold splitext. rewrite Hs, Hd, Hsep.
destruct (Z.ltb_spec (-1) (rfind "." r + 1)), (Z.ltb_spec (-1) (rfind "." r));
  try lia.
replace (Z.to_nat (rfind "." r + 1 - (-1 + 1)))
  with (S (Z.to_nat (rfind "." r - (-1 + 1)))) by lia.
cbn [splitext_loop]. change (-1 + 1) with 0. rewrite slice_head.
cbn [String.eqb Ascii.eqb Bool.eqb negb].
apply (splitext_loop_cons "." r _ 0 (rfind "." r)); lia.
Qed.

Lemma dots_no_sep (x : string) : all_in "." x = true -> rfind "/" x = -1.
Proof.
induction x as [|b y IH]; [reflexivity|]. simpl. intros H.
apply andb_prop in H as [Hb Hy]. rewrite orb_false_r in Hb.
apply Ascii.eqb_eq in Hb. subst b. now rewrite IH.
Qed.

(** A name made of dots only, then a dot and a suffix: no extension. *)
Lemma splitext_dots (dots ext : string) :
  all_in "." dots = true -> rfind "/" ext = -1 -> rfind "." ext = -1 ->
  splitext (dots +:+ String "." ext) = (dots +:+ String "." ext, EmptyString).
Proof.
intros Hdots Hsep Hdot. induction dots as [|a x IH].
- rewrite append_nil. unfold splitext.
  rewrite !rfind_cons, Hsep, Hdot. simpl. now rewrite slice_to_0.
- simpl in Hdots. apply andb_prop in Hdots as [Ha Hx].
  rewrite orb_false_r in Ha. apply Ascii.eqb_eq in Ha. subst a.
  rewrite append_cons, splitext_dot.
  + now rewrite IH.
  + rewrite rfind_app_l; [now apply dots_no_sep | now rewrite rfind_cons, Hsep].
  + rewrite rfind_app_last by assumption. apply len_nonneg.
Qed.

(** A stem with a character that is not a dot, then a dot and a suffix
    without dot: the suffix is the extension. *)
Lemma splitext_stem (stem ext : string) :
  rfind "/" stem = -1 -> all_in "." stem = false ->
  rfind "/" ext = -1 -> rfind "." ext = -1 ->
  splitext (stem +:+ String "." ext) = (stem, String "." ext).
Proof.
intros Hstem Hall Hsep Hdot. induction stem as [|a x IH]; [discriminate Hall|].
assert (rfind "/" (String a x +:+ String "." ext) = -1) as Hs.
{ rewrite rfind_app_l; [exact Hstem | now rewrite rfind_cons, Hsep]. }
assert (rfind "/" x = -1 /\ Ascii.eqb a "/" = false) as [Hx Ha].
{ rewrite rfind_cons in Hstem. pose proof (rfind_ge "/" x).
  destruct (Z.leb_spec 0 (rfind "/" x)); [lia|].
  destruct (Ascii.eqb a "/"); [discriminate Hstem|]. split; [lia | reflexivity]. }
destruct (Ascii.eqb_spec a ".") as [->|Hne].
- simpl in Hall.
  rewrite append_cons, splitext_dot.
  + now rewrite IH.
  + rewrite rfind_app_l; [exact Hx | now rewrite rfind_cons, Hsep].
  + rewrite rfind_app_last by assumption. apply len_nonneg.
- unfold splitext. rewrite Hs, rfind_app_last by assumption.
  pose proof (len_nonneg x). rewrite len_cons.
  destruct (Z.ltb_spec (-1) (len x + 1)); [|lia].
  replace (Z.to_nat (len x + 1 - (-1 + 1))) with (S (Z.to_nat (len x))) by lia.
  cbn [splitext_loop]. change (-1 + 1) with 0.
  rewrite append_cons, slice_head. cbn [String.eqb].
  apply Ascii.eqb_neq in Hne. rewrite Hne. cbn [negb].
  rewrite <- (append_cons a x), <- (len_cons a x).
  now rewrite slice_to_app, slice_from_app.
Qed.

End NameFacts.

(** X1. The file [enrich] creates when no output file is given is always
    a plain file name: it has no directory separator, whatever directory
    the input came from, so it lies in the current directory; and it is
    never the dash that [click.open_file] takes for standard output, so
    a file is really opened. *)
Theorem synthesized_name_is_local (name : string) (fmt : output_format) :
  let out := output_file_name name (PStr (format_name fmt)) in
  PyStr.rfind "/" out = -1
  /\ PosixPath.basename out = out
  /\ out <> "-"
  /\ forall (w : world) (st : state),
      Click.open_file out "w" w st =
      (Return (Path out), record st [OpenFile out "w"]).
Proof.
intros out.
assert (PyStr.rfind "/" out = -1) as Hsep.
{ unfold out. rewrite output_file_name_eq, rfind_app_l.
  - apply basename_no_sep.
  - now destruct fmt. }
pose proof (output_file_name_not_dash name fmt) as Hdash. fold out in Hdash.
split; [exact Hsep|]. split; [now apply basename_nosep|]. split.
- intros E. rewrite E in Hdash. discriminate Hdash.
- intros w st. unfold Click.open_file. rewrite Hdash. reflexivity.
Qed.

(** X2. Which part of the input name the synthesized name keeps.  For an
    input [dir/stem.ext] (or [stem.ext]) whose stem has a character that
    is not a dot and whose [ext] has no dot, only that last extension is
    replaced: the file is [stem.mdm] or [stem.txt].  A name that is dots
    followed by one suffix (a hidden file such as [.eml]) has no
    extension to replace and keeps its whole name, and so does a name
    without any dot. *)
Theorem last_extension_is_replaced (dir stem ext : string) (fmt : output_format) :
  PyStr.rfind "/" stem = -1 ->
  PyStr.rfind "/" ext = -1 ->
  PyStr.rfind "." ext = -1 ->
  let out (p : string) := output_file_name p (PStr (format_name fmt)) in
  (PyStr.all_in "." stem = false ->
   out (stem +:+ String "." ext) = stem +:+ extension fmt
   /\ out (dir +:+ String "/" (stem +:+ String "." ext)) = stem +:+ extension fmt)
  /\ (PyStr.all_in "." stem = true ->
      out (dir +:+ String "/" (stem +:+ String "." ext)) =
      (stem +:+ String "." ext) +:+ extension fmt)
  /\ (PyStr.rfind "." stem = -1 ->
      out (dir +:+ String "/" stem) = stem +:+ extension fmt).
Proof.
intros Hstem Hsep Hdot out.
assert (PyStr.rfind "/" (stem +:+ String "." ext) = -1) as Hrest.
{ rewrite rfind_app_l; [exact Hstem | now rewrite rfind_cons, Hsep]. }
unfold out. rewrite !output_file_name_eq, !basename_splitext.
rewrite !basename_app by assumption.
rewrite (basename_nosep _ Hrest).
split; [|split].
- intros Hall. now rewrite splitext_stem.
- intros Hall. now rewrite splitext_dots.
- intros Hnodot. unfold PosixPath.splitext. now rewrite Hstem, Hnodot.
Qed.

Lemma last_extension_is_replaced_witness :
  output_file_name "in.box/mail.tar.eml" (PStr "json") = "mail.tar.mdm"
  /\ output_file_name "in.box/.eml" (PStr "txt") = ".eml.txt"
  /\ output_file_name "in.box/README" (PStr "json") = "README.mdm".
Proof.
split; [|split].
- apply (proj1 (last_extension_is_replaced "in.box" "mail.tar" "eml" json
                  eq_refl eq_refl eq_refl) eq_refl).
- apply (proj1 (proj2 (last_extension_is_replaced "in.box" EmptyString "eml" txt
                         eq_refl eq_refl eq_refl)) eq_refl).
- apply (proj2 (proj2 (last_extension_is_replaced "in.box" "README" "eml" json
                         eq_refl eq_refl eq_refl)) eq_refl).
Defined.

(** ** Failures of the wrapped call *)

(** What [handle_exceptions] makes of any exception: it adds at most the
    log line, and what it raises is the exit with -1, an error of its own
    handler, or the exception it got. *)
Lemma handle_exceptions_raise (function : fn) args kwargs w st st' e :
  function args kwargs w st = (Raise e, st') ->
  exists (e' : exn) (l : list event),
    handle_exceptions function args kwargs w st = (Raise e', record st' l)
    /\ Forall failure_event l
    /\ (forall code, e' = Exit code -> code = -1 \/ e = Exit code).
Proof.
intros H. unfold handle_exceptions, try. rewrite H.
assert (forall x : exn, (forall code, x = Exit code -> code = -1 \/ e = Exit code) ->
          exists (e' : exn) (l : list event),
            (Raise x : outcome value, st') = (Raise e', record st' l)
            /\ Forall failure_event l
            /\ (forall code, e' = Exit code -> code = -1 \/ e = Exit code)) as Hsame.
{ intros x Hx. exists x, []. unfold record. rewrite app_nil_r.
  destruct st'. repeat split; auto. }
assert (forall m : string,
          exists (e' : exn) (l : list event),
            (Raise (Exit (-1)) : outcome value, record st' [LogError m])
            = (Raise e', record st' l)
            /\ Forall failure_event l
            /\ (forall code, e' = Exit code -> code = -1 \/ e = Exit code)) as Hlog.
{ intros m. exists (Exit (-1)), [LogError m]. repeat split.
  - repeat constructor.
  - intros code [= <-]. now left. }
destruct e as [a|a|text|code| | | | | | | |];
  try (apply Hsame; intros code' E; first [discriminate E | now right]).
- destruct a as [|v rest]; [apply Hsame; discriminate|].
  destruct v; try (apply Hsame; discriminate).
  unfold bind, index, getitem. cbn.
  destruct (PyVal.assoc "detail" d); [apply Hlog | apply Hsame; discriminate].
- destruct a as [|v0 [|v rest]]; try (apply Hsame; discriminate).
  destruct v; try (apply Hsame; discriminate).
  unfold bind, index, getitem. cbn.
  destruct (PyVal.assoc "detail" d); [apply Hlog | apply Hsame; discriminate].
- apply Hlog.
Qed.

(** X3. A rate-limit or request failure whose payload does not carry the
    detail where the handler looks for it ([args[0]["detail"]], resp.
    [args[1]["detail"]]) is not reported as an API error: the handler
    itself fails, with [IndexError] when the argument is missing,
    [TypeError] when it is no dictionary and [KeyError] when the
    dictionary has no ["detail"]; nothing is logged, and click shows no
    message for such an error. *)
Theorem failure_without_detail (function : fn) (args : list posarg)
    (kwargs : gmap string param) (w : world) (st st' : state) (e : exn)
    (a : list value) :
  function args kwargs w st = (Raise e, st') ->
  e = RateLimitError a \/ e = RequestFailure a ->
  detail_of e = None ->
  exists e' : exn,
    handle_exceptions function args kwargs w st = (Raise e', st')
    /\ (e' = IndexError \/ e' = TypeError \/ e' = KeyError "detail")
    /\ message e' = None
    /\ (e = RateLimitError [] -> e' = IndexError)
    /\ (forall x, e = RequestFailure [x] -> e' = IndexError).
Proof.
intros H Hclass Hd. unfold handle_exceptions, try. rewrite H.
assert (forall x : exn,
          x = IndexError \/ x = TypeError \/ x = KeyError "detail" ->
          message x = None) as Hmsg
  by (intros x [->|[->| ->]]; reflexivity).
destruct Hclass as [-> | ->].
- destruct a as [|v rest].
  + exists IndexError. repeat split; auto.
  + destruct v; try (exists TypeError; repeat split; auto; discriminate).
    unfold bind, index, getitem. cbn. simpl in Hd.
    destruct (PyVal.assoc "detail" d); [discriminate Hd|].
    exists (KeyError "detail"). repeat split; auto; discriminate.
- destruct a as [|v0 [|v rest]].
  + exists IndexError. repeat split; auto.
  + exists IndexError. repeat split; auto.
  + destruct v; try (exists TypeError; repeat split; auto; discriminate).
    unfold bind, index, getitem. cbn. simpl in Hd.
    destruct (PyVal.assoc "detail" d); [discriminate Hd|].
    exists (KeyError "detail"). repeat split; auto; discriminate.
Qed.

Lemma failure_without_detail_witness :
  let function := subcommand (Sample.fails (RequestFailure [VInt 500])) in
  let st := {| params := ∅; trace := [] |} in
  exists e' : exn,
    handle_exceptions function [] ∅ (Sample.world_of "query" None false) st =
    (Raise e', record st [Invoke [] ∅])
    /\ (e' = IndexError \/ e' = TypeError \/ e' = KeyError "detail")
    /\ message e' = None
    /\ (RequestFailure [VInt 500] = RateLimitError [] -> e' = IndexError)
    /\ (forall x, RequestFailure [VInt 500] = RequestFailure [x] -> e' = IndexError).
Proof.
intros function st.
apply (failure_without_detail function [] ∅ (Sample.world_of "query" None false)
         st (record st [Invoke [] ∅]) (RequestFailure [VInt 500]) [VInt 500]).
- reflexivity.
- now right.
- reflexivity.
Defined.

(** X4. Stacking [handle_exceptions] twice changes nothing: what the
    decorator returns or raises is never one of the failures it
    classifies, so a second layer passes everything through; in
    particular a result goes through any number of layers unchanged. *)
Theorem handle_exceptions_idempotent (function : fn) (args : list posarg)
    (kwargs : gmap string param) (w : world) (st : state) :
  handle_exceptions (handle_exceptions function) args kwargs w st =
  handle_exceptions function args kwargs w st.
Proof.
unfold handle_exceptions at 1. unfold try.
destruct (handle_exceptions function args kwargs w st) as [[r|e'] st1] eqn:Hh;
  [reflexivity|].
unfold handle_exceptions, try in Hh.
destruct (function args kwargs w st) as [[r|e] st0]; [discriminate Hh|].
destruct e as [a|a|text|code| | | | | | | |];
  try (injection Hh as <- <-; reflexivity).
- destruct a as [|v rest]; [injection Hh as <- <-; reflexivity|].
  destruct v; try (injection Hh as <- <-; reflexivity).
  unfold bind, index, getitem in Hh. cbn in Hh.
  destruct (PyVal.assoc "detail" d); injection Hh as <- <-; reflexivity.
- destruct a as [|v0 [|v rest]]; try (injection Hh as <- <-; reflexivity).
  destruct v; try (injection Hh as <- <-; reflexivity).
  unfold bind, index, getitem in Hh. cbn in Hh.
  destruct (PyVal.assoc "detail" d); injection Hh as <- <-; reflexivity.
Qed.

Lemma failure_events_silent (l : list event) :
  Forall failure_event l ->
  renders l = [] /\ opened l = [] /\ echoed Stdout l = [] /\ api_calls l = 0%nat.
Proof.
induction 1 as [|e l He Hl IH]; [repeat split|].
destruct IH as (Hr & Ho & He' & Ha).
destruct e as [| f t | | | | | |]; try contradiction; simpl; auto.
destruct f; try contradiction. simpl. auto.
Qed.

(** A failing wrapped call, for the whole stack. *)
Lemma stack_raise (FORMATTERS : gmap string formatter_entry) (wrapper : fn)
    (w : world) (options : gmap string param) (k : param) (st' : state) (e : exn) :
  resolved_key options (config_api_key w) = Some k ->
  wrapper [Ctx; Client k] options w
    (record {| params := options; trace := [] |} [NewClient k])
  = (Raise e, st') ->
  let run :=
    main (pass_api_client
            (Click.pass_context
               (echo_result FORMATTERS (handle_exceptions wrapper)))) w options in
  (exists l, events run = trace st' ++ l /\ Forall failure_event l)
  /\ (e <> Exit 0 -> exit_code run <> 0).
Proof.
intros Hkey Hrun run. unfold run, main.
rewrite pass_api_client_run. cbn [params]. rewrite Hkey.
unfold Click.pass_context.
destruct (handle_exceptions_raise wrapper _ _ w _ st' e Hrun)
  as (e' & l & Hh & Hl & Hcode).
rewrite (echo_result_raise FORMATTERS _ _ _ w _ (record st' l) e' Hh).
assert (Forall failure_event (l ++ [Traceback e'])) as Htb
  by (apply Forall_app; split; [exact Hl | repeat constructor]).
assert (forall m, Forall failure_event (l ++ [Echo Stderr m])) as Herr
  by (intros m; apply Forall_app; split; [exact Hl | repeat constructor]).
destruct e' as [| | |code| | | | | | | |]; cbn;
  try (split; [eexists; split; [symmetry; apply app_assoc | auto] | discriminate]).
split; [now exists l|].
intros Hne E. subst code. destruct (Hcode 0 eq_refl) as [E|E]; [discriminate E|].
now apply Hne.
Qed.

(** X5. Whatever the subcommand raises, nothing is rendered, no file is
    opened and nothing is echoed to standard output: besides building the
    client and the call itself, the run only holds the log line of a
    classified failure and the error or traceback click ends with.  The
    status is non-zero unless the subcommand itself asked for exit 0. *)
Theorem failed_call_writes_nothing (FORMATTERS : gmap string formatter_entry)
    (body : list posarg -> gmap string param -> outcome value) (w : world)
    (options : gmap string param) (k : param) (e : exn) (run : process) :
  resolved_key options (config_api_key w) = Some k ->
  body [Ctx; Client k] options = Raise e ->
  run = main (enrich_command FORMATTERS (subcommand body)) w options
  \/ run = main (query_command FORMATTERS (subcommand body)) w options
  \/ (detections_given options = true
      /\ run = main (analyze_command FORMATTERS (subcommand body)) w options) ->
  (exists l, events run = [NewClient k; Invoke [Ctx; Client k] options] ++ l
             /\ Forall failure_event l)
  /\ renders (events run) = []
  /\ opened (events run) = []
  /\ echoed Stdout (events run) = []
  /\ api_calls (events run) = 1%nat
  /\ (e <> Exit 0 -> exit_code run <> 0).
Proof.
intros Hkey Hbody Hrun.
assert (forall wrapper : fn,
          wrapper [Ctx; Client k] options w
            (record {| params := options; trace := [] |} [NewClient k])
          = (Raise e,
             record (record {| params := options; trace := [] |} [NewClient k])
               [Invoke [Ctx; Client k] options]) ->
          run = main (pass_api_client
                        (Click.pass_context
                           (echo_result FORMATTERS (handle_exceptions wrapper))))
                  w options ->
          (exists l, events run = [NewClient k; Invoke [Ctx; Client k] options] ++ l
                     /\ Forall failure_event l)
          /\ (e <> Exit 0 -> exit_code run <> 0)) as Hstack.
{ intros wrapper Hw ->.
  exact (stack_raise FORMATTERS wrapper w options k _ e Hkey Hw). }
assert ((exists l, events run = [NewClient k; Invoke [Ctx; Client k] options] ++ l
                   /\ Forall failure_event l)
        /\ (e <> Exit 0 -> exit_code run <> 0)) as [[l [Hev Hl]] Hcode].
{ destruct Hrun as [-> | [-> | [Hgiven ->]]].
  - apply (Hstack (enrich_wrapper (subcommand body))); [|reflexivity].
    unfold enrich_wrapper. now rewrite subcommand_run, Hbody.
  - apply (Hstack (query_wrapper (subcommand body))); [|reflexivity].
    unfold query_wrapper. now rewrite subcommand_run, Hbody.
  - apply (Hstack (analyze_wrapper (subcommand body))); [|reflexivity].
    rewrite analyze_wrapper_given by assumption.
    now rewrite subcommand_run, Hbody. }
destruct (failure_events_silent l Hl) as (Hr & Ho & He & Ha).
split; [now exists l|]. rewrite Hev. cbn. rewrite Hr, Ho, He, Ha. auto.
Qed.

Lemma failed_call_writes_nothing_witness :
  let body := Sample.fails (OtherError "ValueError" "no such message") in
  let w := Sample.world_of "query" (Some "persisted") false in
  let options := query_options None (Path "mail.mdm") "q" None txt in
  let run := main (query_command Sample.formatters (subcommand body)) w options in
  renders (events run) = []
  /\ opened (events run) = []
  /\ echoed Stdout (events run) = []
  /\ api_calls (events run) = 1%nat
  /\ (OtherError "ValueError" "no such message" <> Exit 0 -> exit_code run <> 0).
Proof.
intros body w options run.
apply (failed_call_writes_nothing Sample.formatters body w options
         (PStr "persisted") (OtherError "ValueError" "no such message") run).
- reflexivity.
- reflexivity.
- right. left. reflexivity.
Defined.

(** ** What the decorators add around the call *)

Section OutputOnly.

Variable FORMATTERS : gmap string formatter_entry.

Lemma output_only_ret {A} (a : A) : output_only (ret a).
Proof.
intros w st. split; [exists []; split; [now rewrite app_nil_r | constructor] | auto].
Qed.

Lemma output_only_raise {A} (e : exn) : output_only (@raise A e).
Proof.
intros w st. split; [exists []; split; [now rewrite app_nil_r | constructor] | auto].
Qed.

Lemma output_only_lift {A} (o : outcome A) : output_only (lift o).
Proof.
intros w st. split; [exists []; split; [now rewrite app_nil_r | constructor] | auto].
Qed.

Lemma output_only_ask : output_only ask.
Proof.
intros w st. split; [exists []; split; [now rewrite app_nil_r | constructor] | auto].
Qed.

Lemma output_only_get_params : output_only get_params.
Proof.
intros w st. split; [exists []; split; [now rewrite app_nil_r | constructor] | auto].
Qed.

Lemma output_only_emit (e : event) : no_api e -> output_only (emit e).
Proof.
intros He w st. split; [exists [e]; split; [reflexivity | now constructor] | auto].
Qed.

Lemma output_only_set_output_file (x : param) :
  output_only (set_param "output_file" x).
Proof.
intros w st. split.
- exists []. split; [now rewrite app_nil_r | constructor].
- intros key Hne. simpl. now rewrite lookup_insert_ne.
Qed.

Lemma output_only_bind {A B} (m : M A) (k : A -> M B) :
  output_only m -> (forall a, output_only (k a)) -> output_only (bind m k).
Proof.
intros Hm Hk w st. unfold bind. specialize (Hm w st).
destruct (m w st) as [[a|e] st1]; simpl in Hm; [|exact Hm].
destruct Hm as [[l1 [Ht1 Hl1]] Hp1].
destruct (Hk a w st1) as [[l2 [Ht2 Hl2]] Hp2]. split.
- exists (l1 ++ l2). split.
  + now rewrite Ht2, Ht1, app_assoc.
  + apply Forall_app. now split.
- intros key Hne. now rewrite Hp2, Hp1.
Qed.

Lemma output_only_try {A} (m : M A) (handler : exn -> M A) :
  output_only m -> (forall e, output_only (handler e)) -> output_only (try m handler).
Proof.
intros Hm Hh w st. unfold try. specialize (Hm w st).
destruct (m w st) as [[a|e] st1]; simpl in Hm; [exact Hm|].
destruct Hm as [[l1 [Ht1 Hl1]] Hp1].
destruct (Hh e w st1) as [[l2 [Ht2 Hl2]] Hp2]. split.
- exists (l1 ++ l2). split.
  + now rewrite Ht2, Ht1, app_assoc.
  + apply Forall_app. now split.
- intros key Hne. now rewrite Hp2, Hp1.
Qed.

Ltac output_step :=
  lazymatch goal with
  | |- output_only (bind _ _) => apply output_only_bind; [|intros ?]
  | |- output_only (try _ _) => apply output_only_try; [|intros ?]
  | |- output_only (ret _) => apply output_only_ret
  | |- output_only (raise _) => apply output_only_raise
  | |- output_only (lift _) => apply output_only_lift
  | |- output_only (Click.exit _) => apply output_only_raise
  | |- output_only ask => apply output_only_ask
  | |- output_only get_params => apply output_only_get_params
  | |- output_only (emit _) => apply output_only_emit; exact I
  | |- output_only (set_param "output_file" _) => apply output_only_set_output_file
  | |- output_only (match ?x with _ => _ end) => destruct x
  | |- output_only (let _ := _ in _) => cbv zeta
  | |- output_only _ => solve [auto]
  end.

Lemma output_only_echo (message : string) (f : param) :
  output_only (Click.echo message f).
Proof. unfold Click.echo. repeat output_step. Qed.

Lemma output_only_open_file (path mode : string) :
  output_only (Click.open_file path mode).
Proof. unfold Click.open_file. repeat output_step. Qed.

Lemma output_only_render key f result verbose :
  output_only (render key f result verbose).
Proof. unfold render. repeat output_step. Qed.

Lemma output_only_getitem (v : value) (key : string) : output_only (getitem v key).
Proof. unfold getitem. repeat output_step. Qed.

Lemma output_only_index (args : list value) (i : nat) : output_only (index args i).
Proof. unfold index. repeat output_step. Qed.

Lemma output_only_name_of (x : param) : output_only (name_of x).
Proof. unfold name_of. repeat output_step. Qed.

Lemma output_only_lookup_format (x : param) :
  output_only (lookup_format FORMATTERS x).
Proof. unfold lookup_format. repeat output_step. Qed.

Lemma output_only_subscript fmt entry command :
  output_only (subscript fmt entry command).
Proof. unfold subscript. repeat output_step. Qed.

Lemma output_only_echo_result (function : fn) args kwargs :
  output_only (function args kwargs) ->
  output_only (echo_result FORMATTERS function args kwargs).
Proof.
intros Hf. unfold echo_result.
repeat first
  [ apply output_only_echo | apply output_only_open_file
  | apply output_only_render | apply output_only_getitem
  | apply output_only_name_of | apply output_only_lookup_format
  | apply output_only_subscript | output_step ].
Qed.

Lemma output_only_handle_exceptions (function : fn) args kwargs :
  output_only (function args kwargs) ->
  output_only (handle_exceptions function args kwargs).
Proof.
intros Hf. unfold handle_exceptions.
repeat first
  [ apply output_only_getitem | apply output_only_index | output_step ].
Qed.

(** After the wrapped function has had its outcome, the two decorators
    around it only add events that are no use of the API and only touch
    ["output_file"]. *)
Lemma decorators_after_call (function : fn) args kwargs w st o st' :
  function args kwargs w st = (o, st') ->
  let final := snd (echo_result FORMATTERS (handle_exceptions function) args kwargs w st) in
  (exists l, trace final = trace st' ++ l /\ Forall no_api l)
  /\ forall key : string,
      key <> "output_file" -> params final !! key = params st' !! key.
Proof.
intros H final.
assert (echo_result FORMATTERS (handle_exceptions function) args kwargs w st =
        echo_result FORMATTERS (handle_exceptions (fun _ _ => lift o)) args kwargs w st')
  as E.
{ unfold echo_result, handle_exceptions, bind, try, lift. now rewrite H. }
unfold final. rewrite E.
apply output_only_echo_result, output_only_handle_exceptions, output_only_lift.
Qed.

End OutputOnly.

Lemma no_api_counts (pre l : list event) :
  Forall no_api l ->
  api_calls (pre ++ l) = api_calls pre /\ client_keys (pre ++ l) = client_keys pre.
Proof.
intros Hl. induction pre as [|e pre [IHa IHc]].
- simpl. induction Hl as [|e l He Hl [IHa IHc]]; [now split|].
  destruct e; try contradiction; simpl; auto.
- destruct e; simpl; rewrite ?IHa, ?IHc; auto.
Qed.

(** What [main] adds after the command: nothing, the error on standard
    error, or the traceback. *)
Lemma main_tail (command : fn) (w : world) (options : gmap string param) :
  exists l,
    events (main command w options) =
    trace (snd (command [] options w {| params := options; trace := [] |})) ++ l
    /\ Forall no_api l.
Proof.
unfold main.
destruct (command [] options w _) as [[a|e] st]; simpl.
- exists []. split; [now rewrite app_nil_r | constructor].
- destruct e; simpl;
    first [ exists []; split; [now rewrite app_nil_r | constructor]
          | eexists [_]; split; [reflexivity | repeat constructor] ].
Qed.

(** The whole stack, once the innermost wrapper has had its outcome. *)
Lemma stack_after_call (FORMATTERS : gmap string formatter_entry) (wrapper : fn)
    (w : world) (options : gmap string param) (k : param) (o : outcome value)
    (st' : state) :
  resolved_key options (config_api_key w) = Some k ->
  wrapper [Ctx; Client k] options w
    (record {| params := options; trace := [] |} [NewClient k])
  = (o, st') ->
  let stack :=
    pass_api_client
      (Click.pass_context (echo_result FORMATTERS (handle_exceptions wrapper))) in
  (exists l, events (main stack w options) = trace st' ++ l /\ Forall no_api l)
  /\ forall key : string,
      key <> "output_file" ->
      params (snd (stack [] options w {| params := options; trace := [] |})) !! key
      = params st' !! key.
Proof.
intros Hkey Hrun stack.
destruct (decorators_after_call FORMATTERS wrapper _ _ w _ o st' Hrun)
  as [[l [Ht Hl]] Hp].
assert (stack [] options w {| params := options; trace := [] |} =
        echo_result FORMATTERS (handle_exceptions wrapper) [Ctx; Client k] options w
          (record {| params := options; trace := [] |} [NewClient k])) as E.
{ unfold stack. rewrite pass_api_client_run. cbn [params]. now rewrite Hkey. }
split.
- destruct (main_tail stack w options) as [l' [Hm Hl']].
  exists (l ++ l'). split.
  + now rewrite Hm, E, Ht, app_assoc.
  + apply Forall_app. now split.
- intros key Hne. rewrite E. now apply Hp.
Qed.

(** X6. No retry and no second client.  In every [enrich] and [query]
    invocation for which a key is resolved, on every path, failing ones
    included, exactly one client is built and the subcommand is called
    exactly once; without a key neither happens.  For [analyze] the same
    holds, except that the subcommand is called only when a detections
    file or a non-empty raw detection is given or [detections.pql] can be
    opened for reading: when it is missing, or there but not readable,
    the client is built and the subcommand is not called. *)
Theorem api_is_called_once (FORMATTERS : gmap string formatter_entry)
    (body : list posarg -> gmap string param -> outcome value) (w : world)
    (api_key : option string) (input_file : file)
    (detections_file : option file) (detection_str : option string)
    (query : string) (output_file : option file) (fmt : output_format) :
  let enrich := enrich_options api_key input_file output_file fmt in
  let analyze :=
    analyze_options api_key input_file detections_file detection_str
      output_file fmt in
  let query := query_options api_key input_file query output_file fmt in
  let key := resolved_key enrich (config_api_key w) in
  let calls (p : process) := (api_calls (events p), client_keys (events p)) in
  let once := match key with Some k => (1%nat, [k]) | None => (0%nat, []) end in
  calls (main (enrich_command FORMATTERS (subcommand body)) w enrich) = once
  /\ calls (main (query_command FORMATTERS (subcommand body)) w query) = once
  /\ calls (main (analyze_command FORMATTERS (subcommand body)) w analyze) =
     match key with
     | Some k =>
         (if detections_given analyze
          then 1%nat
          else match open_read w "detections.pql" with
               | Readable => 1%nat
               | Missing | Unreadable _ => 0%nat
               end, [k])
     | None => (0%nat, [])
     end.
Proof.
intros enrich analyze query' key calls once.
assert (forall (wrapper : fn) options k (o : outcome value) pre,
          resolved_key options (config_api_key w) = Some k ->
          wrapper [Ctx; Client k] options w
            (record {| params := options; trace := [] |} [NewClient k])
          = (o, record {| params := options; trace := [] |} (NewClient k :: pre)) ->
          calls (main (pass_api_client
                         (Click.pass_context
                            (echo_result FORMATTERS (handle_exceptions wrapper))))
                   w options)
          = (api_calls pre, k :: client_keys pre)) as Hstack.
{ intros wrapper options k o pre Hkey Hrun.
  destruct (stack_after_call FORMATTERS wrapper w options k o _ Hkey Hrun)
    as [[l [Hev Hl]] _].
  unfold calls. rewrite Hev.
  destruct (no_api_counts
              (trace (record {| params := options; trace := [] |} (NewClient k :: pre)))
              l Hl) as [-> ->].
  reflexivity. }
assert (forall function : fn, forall options,
          resolved_key options (config_api_key w) = None ->
          calls (main (pass_api_client function) w options) = (0%nat, [])) as Hnone.
{ intros function options Hkey. unfold calls.
  now rewrite (key_missing function w options Hkey). }
unfold once. fold key.
assert (resolved_key analyze (config_api_key w) = key) as Ha by reflexivity.
assert (resolved_key query' (config_api_key w) = key) as Hq by reflexivity.
assert (resolved_key enrich (config_api_key w) = key) as He by reflexivity.
destruct key as [k|].
- split; [|split].
  + unfold enrich_command.
    rewrite (Hstack (enrich_wrapper (subcommand body)) enrich k
               (body [Ctx; Client k] enrich) [Invoke [Ctx; Client k] enrich] He);
      [reflexivity|].
    unfold enrich_wrapper. now rewrite subcommand_run.
  + unfold query_command.
    rewrite (Hstack (query_wrapper (subcommand body)) query' k
               (body [Ctx; Client k] query') [Invoke [Ctx; Client k] query'] Hq);
      [reflexivity|].
    unfold query_wrapper. now rewrite subcommand_run.
  + unfold analyze_command.
    destruct (detections_given analyze) eqn:Hgiven.
    * rewrite (Hstack (analyze_wrapper (subcommand body)) analyze k
                 (body [Ctx; Client k] analyze) [Invoke [Ctx; Client k] analyze] Ha);
        [reflexivity|].
      rewrite analyze_wrapper_given by assumption. now rewrite subcommand_run.
    * destruct (open_read w "detections.pql") as [| |class] eqn:Hex.
      -- set (kwargs := <["detections_file" := PFile (Path "detections.pql")]> analyze).
         rewrite (Hstack (analyze_wrapper (subcommand body)) analyze k
                    (body [Ctx; Client k] kwargs)
                    [OpenFile "detections.pql" "r"; Invoke [Ctx; Client k] kwargs] Ha);
           [reflexivity|].
         rewrite analyze_wrapper_default by assumption. now rewrite subcommand_run.
      -- rewrite (Hstack (analyze_wrapper (subcommand body)) analyze k
                    (Raise MissingDetectionInput) [] Ha);
           [reflexivity|].
         now rewrite analyze_wrapper_missing.
      -- rewrite (Hstack (analyze_wrapper (subcommand body)) analyze k
                    (Raise (OtherError class "detections.pql")) [] Ha);
           [reflexivity|].
         now rewrite (analyze_wrapper_unreadable _ _ _ _ _ class).
- split; [|split]; now apply Hnone.
Qed.

(** X7. The decorators leave the parsed options alone: after any
    [enrich], [analyze] or [query] run, successful or not,
    [context.params] holds for every name but ["output_file"] what click
    parsed.  (The default detections file of [analyze] goes into the
    keyword arguments of the call, not into [context.params].) *)
Theorem options_are_preserved (FORMATTERS : gmap string formatter_entry)
    (body : list posarg -> gmap string param -> outcome value) (w : world)
    (api_key : option string) (input_file : file)
    (detections_file : option file) (detection_str : option string)
    (query : string) (output_file : option file) (fmt : output_format)
    (name : string) :
  name <> "output_file" ->
  let enrich := enrich_options api_key input_file output_file fmt in
  let analyze :=
    analyze_options api_key input_file detections_file detection_str
      output_file fmt in
  let query := query_options api_key input_file query output_file fmt in
  let after (command : fn) (options : gmap string param) :=
    params (snd (command [] options w {| params := options; trace := [] |})) in
  after (enrich_command FORMATTERS (subcommand body)) enrich !! name = enrich !! name
  /\ after (analyze_command FORMATTERS (subcommand body)) analyze !! name
     = analyze !! name
  /\ after (query_command FORMATTERS (subcommand body)) query !! name = query !! name.
Proof.
intros Hname enrich analyze query' after.
assert (forall (wrapper : fn) options,
          (forall k, exists o l,
              wrapper [Ctx; Client k] options w
                (record {| params := options; trace := [] |} [NewClient k])
              = (o, record {| params := options; trace := [] |} l)) ->
          after (pass_api_client
                   (Click.pass_context
                      (echo_result FORMATTERS (handle_exceptions wrapper)))) options
          !! name = options !! name) as Hstack.
{ intros wrapper options Hw. unfold after.
  destruct (resolved_key options (config_api_key w)) as [k|] eqn:Hkey.
  - destruct (Hw k) as (o & l & Hrun).
    destruct (stack_after_call FORMATTERS wrapper w options k o _ Hkey Hrun)
      as [_ Hp].
    now rewrite Hp.
  - rewrite pass_api_client_run. cbn [params]. now rewrite Hkey. }
split; [|split]; apply Hstack; intros k.
- unfold enrich_wrapper. rewrite subcommand_run. now eexists _, [_; _].
- destruct (detections_given analyze) eqn:Hgiven.
  + rewrite analyze_wrapper_given by assumption. rewrite subcommand_run.
    now eexists _, [_; _].
  + destruct (open_read w "detections.pql") as [| |class] eqn:Hex.
    * rewrite analyze_wrapper_default by assumption. rewrite subcommand_run.
      now eexists _, [_; _; _].
    * rewrite analyze_wrapper_missing by assumption. now eexists _, [_].
    * rewrite (analyze_wrapper_unreadable _ _ _ _ _ class) by assumption.
      now eexists _, [_].
- unfold query_wrapper. rewrite subcommand_run. now eexists _, [_; _].
Qed.

Lemma options_are_preserved_witness :
  let body := Sample.returns (VDict Sample.enriched) in
  let w := Sample.world_of "enrich" (Some "persisted") false in
  let enrich := enrich_options None (Path "report.eml") None json in
  params (snd (enrich_command Sample.formatters (subcommand body) [] enrich w
                 {| params := enrich; trace := [] |})) !! "input_file"
  = enrich !! "input_file".
Proof.
intros body w enrich.
assert ("input_file" <> "output_file") as Hne by discriminate.
apply (proj1 (options_are_preserved Sample.formatters body w None (Path "report.eml")
                None None "q" None json "input_file" Hne)).
Defined.

(** ** Lookups that fail after the call *)

Section LookupFailures.
Import PyStr.

Variable FORMATTERS : gmap string formatter_entry.

(** The key whose lookup fails when no rendering function is found. *)
Lemma echo_result_unregistered (function : fn) args kwargs w st st' result
    (fmt : string) :
  function args kwargs w st = (Return result, st') ->
  params st' !! "output_format" = Some (PStr fmt) ->
  resolve FORMATTERS fmt (command_name w) = None ->
  echo_result FORMATTERS function args kwargs w st =
  (Raise (KeyError (match FORMATTERS !! fmt with
                    | None => fmt
                    | Some _ => command_name w
                    end)), st').
Proof.
intros H Hfmt Hres. unfold echo_result, bind, ask, get_params, ret.
rewrite H, Hfmt. unfold lookup_format, resolve in *.
destruct (FORMATTERS !! fmt) as [[g|d]|]; try discriminate Hres; [|reflexivity].
unfold subscript. cbn.
destruct (d !! command_name w); [discriminate Hres | reflexivity].
Qed.

(** [enrich] when the result has no [message_data_model]. *)
Lemma echo_result_enrich_no_model (function : fn) args kwargs w st st'
    (fmt : output_format) key f df (i : file) (o : option file) result :
  function args kwargs w st = (Return result, st') ->
  command_name w = "enrich" ->
  params st' !! "output_format" = Some (PStr (format_name fmt)) ->
  params st' !! "input_file" = Some (PFile i) ->
  params st' !! "output_file" = Some (of_file o) ->
  resolve FORMATTERS (format_name fmt) "enrich" = Some (key, f) ->
  details FORMATTERS = Some df ->
  match result with
  | VDict d => PyVal.assoc "message_data_model" d = None
  | _ => True
  end ->
  let verbose := get_default (params st') "verbose" (PBool false) in
  let name := output_file_name (file_name i) (PStr (format_name fmt)) in
  echo_result FORMATTERS function args kwargs w st =
  (Raise (match result with
          | VDict _ => KeyError "message_data_model"
          | _ => TypeError
          end),
   {| params := match o with
                | Some _ => params st'
                | None => <["output_file" := PFile (Path name)]> (params st')
                end;
      trace := trace st'
               ++ match o with Some _ => [] | None => [OpenFile name "w"] end
               ++ [Render (ByCommand "txt" "enrich_details") result verbose;
                   Echo Stdout (strip NL (df result verbose) +:+ NL)] |}).
Proof.
intros H Hcmd Hfmt Hin Hout Hres Hdet Hmdm verbose name.
assert (exists entry, FORMATTERS !! format_name fmt = Some entry /\
          match entry with
          | Uniform g => ret (ByFormat (format_name fmt), g)
          | PerCommand _ => subscript (format_name fmt) entry "enrich"
          end = ret (key, f)) as [entry [HF Hsel]].
{ unfold resolve in Hres.
  destruct (FORMATTERS !! format_name fmt) as [[g|dd]|]; try discriminate Hres.
  - injection Hres as <- <-. now eexists.
  - eexists; split; [reflexivity|]. unfold subscript.
    destruct (dd !! "enrich"); [|discriminate Hres]. now injection Hres as <- <-. }
assert (exists dd, FORMATTERS !! "txt" = Some (PerCommand dd)
                   /\ dd !! "enrich_details" = Some df) as [dd [Htxt Hdd]].
{ unfold details in Hdet.
  destruct (FORMATTERS !! "txt") as [[g|dd]|]; try discriminate Hdet. eauto. }
assert (forall (w0 : world) (s : state),
          getitem result "message_data_model" w0 s =
          (Raise (match result with
                  | VDict _ => KeyError "message_data_model"
                  | _ => TypeError
                  end), s)) as Hget.
{ intros w0 s. destruct result; try reflexivity. simpl. now rewrite Hmdm. }
unfold echo_result, bind, ask, get_params. rewrite H, Hfmt.
cbn [ret lookup_format format_of]. rewrite HF. cbn [ret].
rewrite Hcmd. rewrite Hsel. cbn [ret String.eqb Ascii.eqb Bool.eqb].
rewrite (get_lookup _ _ _ Hout), of_file_truthy.
destruct o as [file|]; cbn [negb ret].
- rewrite Htxt. cbn [ret subscript]. rewrite Hdd. cbn [ret].
  unfold render, bind, emit, ret, Click.open_file, Click.echo.
  cbn. rewrite Hget. cbn.
  rewrite <- !app_assoc. reflexivity.
- rewrite (get_lookup _ _ _ Hin). cbn [name_of ret].
  unfold Click.open_file at 1. fold name. unfold name at 1.
  rewrite output_file_name_not_dash. cbn [String.eqb Ascii.eqb Bool.eqb].
  unfold bind, emit, ret, set_param. cbn [params trace].
  rewrite Htxt. cbn [subscript]. rewrite Hdd.
  unfold render, bind, emit, ret, Click.open_file, Click.echo.
  cbn. rewrite Hget. cbn. unfold get_default.
  rewrite lookup_insert_ne by done.
  rewrite <- !app_assoc. reflexivity.
Qed.

End LookupFailures.

(** X8. When the result of [enrich] has no [message_data_model] (or is
    no dictionary at all), the failure comes late: the output file has
    already been created when none was given, and the detail view has
    already been rendered and echoed.  Nothing is written to the output
    file, no confirmation follows, and the run ends with the traceback of
    the [KeyError] (resp. [TypeError]) and status 1. *)
Theorem enrich_without_model (FORMATTERS : gmap string formatter_entry)
    (body : list posarg -> gmap string param -> outcome value) (w : world)
    (key : option string) (i : file) (o : option file) (fmt : output_format)
    (k : param) (rk : formatter_key) (f df : renderer) (result : value) :
  let options := enrich_options key i o fmt in
  let name := output_file_name (file_name i) (PStr (format_name fmt)) in
  let error :=
    match result with
    | VDict _ => KeyError "message_data_model"
    | _ => TypeError
    end in
  command_name w = "enrich" ->
  resolved_key options (config_api_key w) = Some k ->
  body [Ctx; Client k] options = Return result ->
  resolve FORMATTERS (format_name fmt) "enrich" = Some (rk, f) ->
  details FORMATTERS = Some df ->
  match result with
  | VDict d => PyVal.assoc "message_data_model" d = None
  | _ => True
  end ->
  main (enrich_command FORMATTERS (subcommand body)) w options =
  {| exit_code := 1;
     events :=
       [NewClient k; Invoke [Ctx; Client k] options]
       ++ match o with Some _ => [] | None => [OpenFile name "w"] end
       ++ [Render (ByCommand "txt" "enrich_details") result (PBool false);
           Echo Stdout (PyStr.strip PyStr.NL (df result (PBool false)) +:+ PyStr.NL);
           Traceback error] |}.
Proof.
intros options name error Hcmd Hkey Hbody Hres Hdet Hmdm.
unfold main, enrich_command. rewrite pass_api_client_run.
cbn [params]. rewrite Hkey. unfold Click.pass_context.
set (st0 := record {| params := options; trace := [] |} [NewClient k]).
rewrite (echo_result_enrich_no_model FORMATTERS _ _ _ w st0
           (record st0 [Invoke [Ctx; Client k] options])
           fmt rk f df i o result); auto.
- fold error. destruct o; destruct result; reflexivity.
- apply handle_exceptions_return. unfold enrich_wrapper.
  rewrite subcommand_run, Hbody. reflexivity.
Qed.

Lemma enrich_without_model_witness :
  let body := Sample.returns (VDict [("subject", VStr "hi")]) in
  let w := Sample.world_of "enrich" (Some "persisted") false in
  let options := enrich_options None (Path "report.eml") None json in
  main (enrich_command Sample.formatters (subcommand body)) w options =
  {| exit_code := 1;
     events :=
       [NewClient (PStr "persisted"); Invoke [Ctx; Client (PStr "persisted")] options;
        OpenFile "report.mdm" "w";
        Render (ByCommand "txt" "enrich_details") (VDict [("subject", VStr "hi")])
          (PBool false);
        Echo Stdout
          (PyStr.strip PyStr.NL
             (Sample.details_renderer (VDict [("subject", VStr "hi")]) (PBool false))
           +:+ PyStr.NL);
        Traceback (KeyError "message_data_model")] |}.
Proof.
intros body w options.
apply (enrich_without_model Sample.formatters body w None (Path "report.eml") None
         json (PStr "persisted") (ByFormat "json") Sample.json_renderer
         Sample.details_renderer (VDict [("subject", VStr "hi")]));
  reflexivity.
Defined.

(** X9. The rendering function is looked up only after the subcommand
    has returned.  When the registry has no entry for the format, or its
    per-command dictionary none for the command, an [enrich] or [query]
    run has built the client and made the call, then ends with the
    traceback of the [KeyError] for the missing key and status 1: nothing
    is rendered, opened or echoed. *)
Theorem unregistered_formatter_fails_after_call
    (FORMATTERS : gmap string formatter_entry)
    (body : list posarg -> gmap string param -> outcome value) (w : world)
    (options : gmap string param) (k : param) (result : value) (fmt : string)
    (run : process) :
  resolved_key options (config_api_key w) = Some k ->
  body [Ctx; Client k] options = Return result ->
  options !! "output_format" = Some (PStr fmt) ->
  resolve FORMATTERS fmt (command_name w) = None ->
  run = main (enrich_command FORMATTERS (subcommand body)) w options
  \/ run = main (query_command FORMATTERS (subcommand body)) w options ->
  run = {| exit_code := 1;
           events :=
             [NewClient k; Invoke [Ctx; Client k] options;
              Traceback (KeyError (match FORMATTERS !! fmt with
                                   | None => fmt
                                   | Some _ => command_name w
                                   end))] |}.
Proof.
intros Hkey Hbody Hfmt Hres Hrun.
assert (main (pass_api_client
                (Click.pass_context
                   (echo_result FORMATTERS
                      (handle_exceptions (enrich_wrapper (subcommand body))))))
          w options =
        {| exit_code := 1;
           events :=
             [NewClient k; Invoke [Ctx; Client k] options;
              Traceback (KeyError (match FORMATTERS !! fmt with
                                   | None => fmt
                                   | Some _ => command_name w
                                   end))] |}) as E.
{ unfold main. rewrite pass_api_client_run. cbn [params]. rewrite Hkey.
  unfold Click.pass_context.
  set (st0 := record {| params := options; trace := [] |} [NewClient k]).
  rewrite (echo_result_unregistered FORMATTERS _ _ _ w st0
             (record st0 [Invoke [Ctx; Client k] options]) result fmt);
    [reflexivity | | exact Hfmt | exact Hres].
  apply handle_exceptions_return. unfold enrich_wrapper.
  now rewrite subcommand_run, Hbody. }
destruct Hrun as [-> | ->]; exact E.
Qed.

Lemma unregistered_formatter_fails_after_call_witness :
  let body := Sample.returns (VStr "2") in
  let w := Sample.world_of "lookup" (Some "persisted") false in
  let options := query_options None (Path "mail.mdm") "q" None txt in
  main (query_command Sample.formatters (subcommand body)) w options =
  {| exit_code := 1;
     events :=
       [NewClient (PStr "persisted"); Invoke [Ctx; Client (PStr "persisted")] options;
        Traceback (KeyError "lookup")] |}.
Proof.
intros body w options.
apply (unregistered_formatter_fails_after_call Sample.formatters body w options
         (PStr "persisted") (VStr "2") "txt"
         (main (query_command Sample.formatters (subcommand body)) w options));
  try reflexivity.
right. reflexivity.
Defined.





(** X12. A placeholder command on every path on which a key is found:
    one client is built and the probe is called exactly once; nothing is
    rendered, no file is opened and nothing is echoed to standard output,
    not even when the probe succeeds, whose run is silent and ends with
    status 0.  The status is 0 only if the probe returned (or itself
    asked for exit 0). *)
Theorem placeholder_is_silent (rate_limit_is_request_failure : bool)
    (not_implemented : param -> string -> outcome value) (name : string)
    (w : world) (key : string) :
  config_api_key w = Some key ->
  key <> EmptyString ->
  let run :=
    main (not_implemented_command rate_limit_is_request_failure not_implemented name)
      w ∅ in
  api_calls (events run) = 1%nat
  /\ client_keys (events run) = [PStr key]
  /\ renders (events run) = []
  /\ opened (events run) = []
  /\ echoed Stdout (events run) = []
  /\ (forall v, not_implemented (PStr key) name = Return v ->
        run = {| exit_code := 0;
                 events := [NewClient (PStr key); Probe (PStr key) name] |})
  /\ (exit_code run = 0 ->
      (exists v, not_implemented (PStr key) name = Return v)
      \/ not_implemented (PStr key) name = Raise (Exit 0)).
Proof.
intros Hcfg Hne run.
assert (resolved_key ∅ (config_api_key w) = Some (PStr key)) as Hkey.
{ rewrite Hcfg. unfold resolved_key. cbn.
  destruct key; [contradiction | reflexivity]. }
destruct (not_implemented (PStr key) name) as [v|e] eqn:Hp.
- assert (run = {| exit_code := 0;
                   events := [NewClient (PStr key); Probe (PStr key) name] |}) as E
    by (unfold run; now rewrite (not_implemented_returned _ _ w ∅ (PStr key) name v)).
  rewrite E. cbn. repeat split; eauto.
- destruct (is_request_failure rate_limit_is_request_failure e) eqn:He.
  + unfold run.
    rewrite (not_implemented_translated _ _ w ∅ (PStr key) name e) by assumption.
    cbn. repeat split; try discriminate.
  + unfold run, main.
    rewrite (not_implemented_propagated _ _ w ∅ (PStr key) name e) by assumption.
    destruct e; try discriminate He; cbn; repeat split; try discriminate.
    intros ->. now right.
Qed.

Lemma placeholder_is_silent_witness :
  let probe : param -> string -> outcome value := fun _ _ => Return (VStr "pong") in
  main (not_implemented_command true probe "feed")
    (Sample.world_of "feed" (Some "persisted") false) ∅ =
  {| exit_code := 0;
     events := [NewClient (PStr "persisted"); Probe (PStr "persisted") "feed"] |}.
Proof.
intros probe.
assert ("persisted" <> EmptyString) as Hne by discriminate.
apply (proj1 (proj2 (proj2 (proj2 (proj2 (proj2
         (placeholder_is_silent true probe "feed"
            (Sample.world_of "feed" (Some "persisted") false) "persisted"
            eq_refl Hne)))))) (VStr "pong")).
reflexivity.
Defined.

Lemma plain_app (a b : string) :
  PyStr.plain (a +:+ b) = PyStr.plain a && PyStr.plain b.
Proof.
induction a as [|c a IH]; [reflexivity|].
rewrite append_cons. simpl. rewrite IH. now rewrite andb_assoc.
Qed.

(** X13. The help text shown when no key is found spells the setup
    command between apostrophes, as it is typed, whenever the name of the
    program has no apostrophe, backslash or unprintable character; the
    whole text is then the fixed seven lines around that name. *)
Theorem help_names_setup_command (prog_name : string) :
  PyStr.plain prog_name = true ->
  api_key_help prog_name =
  PyStr.NL +:+ "Error: API key not found." +:+ PyStr.NL +:+ PyStr.NL
  +:+ "To fix this problem, please use any of the following methods (in order of precedence):"
  +:+ PyStr.NL
  +:+ "- Pass it using the -k/--api-key option." +:+ PyStr.NL
  +:+ "- Set it in the SUBLIME_API_KEY environment variable." +:+ PyStr.NL
  +:+ "- Run '" +:+ prog_name +:+ " setup' to save it to the configuration file."
  +:+ PyStr.NL.
Proof.
intros Hplain. unfold api_key_help.
rewrite repr_plain by (rewrite plain_app, Hplain; reflexivity).
rewrite !append_assoc. reflexivity.
Qed.

Lemma help_names_setup_command_witness :
  PyStr.contains "- Run 'sublime setup' to save it" (api_key_help "sublime") = true.
Proof.
assert (PyStr.plain "sublime" = true) as Hplain by reflexivity.
rewrite (help_names_setup_command "sublime" Hplain). reflexivity.
Defined.

Lemma rstrip_fixed (chars s : string) :
  PyStr.ends_in chars s = false -> PyStr.rstrip chars s = s.
Proof.
induction s as [|c r IH]; [reflexivity|]. intros H.
destruct r as [|c' r'].
- simpl in *. now rewrite H.
- change (PyStr.ends_in chars (String c (String c' r')))
    with (PyStr.ends_in chars (String c' r')) in H.
  change (PyStr.rstrip chars (String c (String c' r')))
    with (match PyStr.rstrip chars (String c' r') with
          | EmptyString =>
              if PyStr.mem c chars then EmptyString else String c EmptyString
          | String a b => String c (String a b)
          end).
  now rewrite IH.
Qed.

(** X14. A rendered text that neither starts nor ends with a newline
    reaches the output as it is, newlines inside it included; and
    stripping is idempotent, so a formatter that already stripped its
    text loses nothing. *)
Theorem stripped_text_is_kept (text : string) :
  (PyStr.starts_in PyStr.NL text = false ->
   PyStr.ends_in PyStr.NL text = false ->
   PyStr.strip PyStr.NL text = text)
  /\ PyStr.strip PyStr.NL (PyStr.strip PyStr.NL text) = PyStr.strip PyStr.NL text.
Proof.
assert (forall s, PyStr.starts_in PyStr.NL s = false ->
                  PyStr.ends_in PyStr.NL s = false ->
                  PyStr.strip PyStr.NL s = s) as Hfixed.
{ intros s Hs He. rewrite strip_rstrip by assumption. now apply rstrip_fixed. }
split; [apply Hfixed|].
destruct (strip_split PyStr.NL text) as (a & b & _ & _ & _ & Hs & He).
now apply Hfixed.
Qed.

Lemma stripped_text_is_kept_witness :
  PyStr.strip PyStr.NL ("a" +:+ PyStr.NL +:+ "b") = "a" +:+ PyStr.NL +:+ "b".
Proof.
apply (proj1 (stripped_text_is_kept ("a" +:+ PyStr.NL +:+ "b"))); reflexivity.
Defined.
